(** * RL.space.euclidean: the real space R^n on NumPy buffers

    A shallow embedding of [RN], [RN.Vector] and [EuclideanSpace] from
    [RL/space/euclidean.py].  Vectors are Python objects (compared with
    [is]) that hold a reference to a NumPy buffer; the buffers live in a
    store that the BLAS routines [scal], [axpy] and [copy] update in place.

    The arithmetic is kept abstract behind the class [Scalar], with two
    instances: [float64] (IEEE binary64, the element type of the buffers)
    and [exactZ] (exact integer arithmetic, where the algebraic laws used to
    compare with the mathematical reference hold).  Results that need no
    law hold for both; the comparison with the reference [a*x_i + b*y_i] is
    made twice, in exact arithmetic and on binary64, where rounding, the
    sign of zeros and non-finite elements show.

    The definitions come first: scalars, the store and the BLAS routines,
    [linCombImpl], [makeVector], [multiplyImpl], [RN.__init__], then [zero],
    [empty], the element access of vectors and [innerImpl], and the
    concrete runs.  The facts follow: lists, the store, what a call leaves
    behind, the two comparisons, termination, and then the properties of
    the engine, of the pointwise product and of the constructor.  The last
    part covers the rest of the module: what the engine may do to the
    store, element access, the making of vectors, the inner product and
    the shapes the pointwise product accepts. *)

From Stdlib Require Import ZArith List Bool Lia PeanoNat Floats.
Import ListNotations.

Set Implicit Arguments.

(** ** Scalars *)

(** The operations the code applies to scalars and buffer elements:
    [a+b], the products inside the BLAS routines, the literals [0] and [1]
    and the comparisons [==] / [!=].  [feqb_zero_zero] records that the
    literal [0] passed down by the recursive call compares equal to [0]. *)
Class Scalar (F : Type) : Type := {
  fzero : F;
  fone : F;
  fadd : F -> F -> F;
  fmul : F -> F -> F;
  feqb : F -> F -> bool;
  feqb_zero_zero : feqb fzero fzero = true
}.

(** Python's [u != v]. *)
Definition fneb {F} `{Scalar F} (u v : F) : bool := negb (feqb u v).

(** IEEE 754 binary64, as NumPy's float64. *)
#[export] Instance float64 : Scalar float := {|
  fzero := 0%float;
  fone := 1%float;
  fadd := PrimFloat.add;
  fmul := PrimFloat.mul;
  feqb := PrimFloat.eqb;
  feqb_zero_zero := eq_refl
|}.

(** Exact arithmetic on integers. *)
#[export] Instance exactZ : Scalar Z := {|
  fzero := 0%Z;
  fone := 1%Z;
  fadd := Z.add;
  fmul := Z.mul;
  feqb := Z.eqb;
  feqb_zero_zero := eq_refl
|}.

(** The laws of exact arithmetic that relate the chosen BLAS sequence to
    the reference [a*x_i + b*y_i].  Floating-point arithmetic satisfies them
    only up to rounding. *)
Class ExactScalar (F : Type) `{Scalar F} : Prop := {
  feqb_eq : forall u v : F, feqb u v = true <-> u = v;
  fadd_comm : forall u v : F, fadd u v = fadd v u;
  fadd_0_l : forall u : F, fadd fzero u = u;
  fmul_0_l : forall u : F, fmul fzero u = fzero;
  fmul_1_l : forall u : F, fmul fone u = u;
  fmul_add_distr_r : forall u v w : F, fmul (fadd u v) w = fadd (fmul u w) (fmul v w)
}.
Arguments ExactScalar F {_}.

(** What adding a scalar that compares equal to zero may change: nothing
    the dispatch looks at.  It holds in exact arithmetic and for binary64
    (where [b] is [+0.0] or [-0.0]). *)
Class ZeroNeutral (F : Type) `{Scalar F} : Prop := {
  fadd_zero_eqb0 : forall a b : F, feqb b fzero = true -> feqb (fadd a b) fzero = feqb a fzero;
  fadd_zero_eqb1 : forall a b : F, feqb b fzero = true -> feqb (fadd a b) fone = feqb a fone;
  fadd_zero_keep : forall a b : F, feqb b fzero = true -> feqb a fzero = false -> fadd a b = a
}.
Arguments ZeroNeutral F {_}.

(** ** Lists as buffer contents *)

Section Lists.
Context {A B C : Type}.

Fixpoint zip_with (f : A -> B -> C) (xs : list A) (ys : list B) : list C :=
  match xs, ys with
  | x :: xs', y :: ys' => f x y :: zip_with f xs' ys'
  | _, _ => []
  end.
End Lists.

(** ** Objects, buffers and the store *)

(** Identity of a NumPy array (what [x.values] refers to).  Arrays and
    vectors are Python objects alike: their identities come from one
    supply, [next_id] of the store. *)
Definition loc := nat.

(** [RN]: the only attribute read by the code below is [_n]. *)
Record RN : Type := mkRN { _n : Z }.

(** [RN.n] (a property without setter). *)
Definition n (self : RN) : Z := _n self.

(** [RN.equals], for [other] an [RN] instance. *)
Definition equals (self other : RN) : bool := Z.eqb (_n self) (_n other).

(** [RN.Vector]: a Python object with its identity [vid] (what [is]
    compares), its [space] and the buffer [values] it refers to.  Two
    objects may refer to one buffer: [makeVector] wraps the array it is
    given without copying. *)
Record Vector : Type := mkVector { vid : nat; space : RN; values : loc }.

(** Python's [u is v] on vectors. *)
Definition is_ (u v : Vector) : bool := Nat.eqb (vid u) (vid v).

(** Ownership as the constructors leave it: two vectors are the same
    object exactly when they refer to the same buffer. *)
Definition exclusive (u v : Vector) : Prop := vid u = vid v <-> values u = values v.

(** Two different objects on two different buffers. *)
Definition non_aliased (u v : Vector) : Prop := vid u <> vid v /\ values u <> values v.

Inductive exn : Type :=
| TypeError
| ValueError
| BlasError
| DimensionMismatch.

Inductive result (A : Type) : Type :=
| Ok (a : A)
| Raise (e : exn)
| OutOfFuel.
Arguments Raise {A} e.
Arguments OutOfFuel {A}.

Definition is_out_of_fuel {A} (r : result A) : bool :=
  match r with
  | OutOfFuel => true
  | _ => false
  end.

Section Engine.
Context {F : Type} `{Scalar F}.

(** A call of one of the three BLAS routines held by the space. *)
Inductive blas_call : Type :=
| Scal (a : F) (buf : loc)
| Axpy (src dst : loc) (k : Z) (a : F)
| Copy (src dst : loc).

Definition is_copy (c : blas_call) : bool :=
  match c with
  | Copy _ _ => true
  | _ => false
  end.

(** The store: contents of every buffer, the BLAS calls issued so far, and
    the identity the next object will get. *)
Record store : Type := mkStore {
  mem : loc -> list F;
  calls : list blas_call;
  next_id : nat
}.

Definition upd (m : loc -> list F) (l : loc) (v : list F) : loc -> list F :=
  fun l' => if Nat.eqb l' l then v else m l'.

(** Computations that read and update the store and may raise. *)
Definition M (A : Type) : Type := store -> result A * store.

Definition ret {A} (a : A) : M A := fun s => (Ok a, s).

Definition bind {A B} (m : M A) (k : A -> M B) : M B :=
  fun s =>
    match m s with
    | (Ok a, s') => k a s'
    | (Raise e, s') => (Raise e, s')
    | (OutOfFuel, s') => (OutOfFuel, s')
    end.

Definition raise {A} (e : exn) : M A := fun s => (Raise e, s).

Definition out_of_fuel {A} : M A := fun s => (OutOfFuel, s).

(** [m] ends, normally or by raising, from every store. *)
Definition returns {A} (m : M A) : Prop :=
  forall s, is_out_of_fuel (fst (m s)) = false.

(** [if c: m] *)
Definition when (c : bool) (m : M unit) : M unit := if c then m else ret tt.

Notation "m1 ;; m2" := (bind m1 (fun _ => m2)) (at level 61, right associativity).

(** *** The BLAS routines, as SciPy binds them

    [scal(a, x)] computes [x := a*x] over the whole array;
    [axpy(x, y, n, a)] computes [y := y + a*x] on the first [n] elements
    and refuses arrays shorter than [n]; [copy(x, y)] overwrites the
    first [len(x)] elements of [y] and refuses a shorter [y].  They work
    in place on contiguous float64 arrays, which is what vectors hold. *)

Definition axpy_list (a : F) (k : nat) (xs ys : list F) : list F :=
  zip_with (fun x y => fadd y (fmul a x)) (firstn k xs) (firstn k ys) ++ skipn k ys.

Definition copy_list (xs ys : list F) : list F := xs ++ skipn (length xs) ys.

Definition _scal (a : F) (x : loc) : M unit :=
  fun s => (Ok tt, {| mem := upd (mem s) x (map (fmul a) (mem s x));
                      calls := calls s ++ [Scal a x];
                      next_id := next_id s |}).

Definition _axpy (x y : loc) (k : Z) (a : F) : M unit :=
  fun s =>
    if (Z.to_nat k <=? length (mem s x))%nat && (Z.to_nat k <=? length (mem s y))%nat
    then (Ok tt, {| mem := upd (mem s) y (axpy_list a (Z.to_nat k) (mem s x) (mem s y));
                    calls := calls s ++ [Axpy x y k a];
                    next_id := next_id s |})
    else (Raise BlasError, {| mem := mem s; calls := calls s ++ [Axpy x y k a];
                              next_id := next_id s |}).

Definition _copy (x y : loc) : M unit :=
  fun s =>
    if (length (mem s x) <=? length (mem s y))%nat
    then (Ok tt, {| mem := upd (mem s) y (copy_list (mem s x) (mem s y));
                    calls := calls s ++ [Copy x y];
                    next_id := next_id s |})
    else (Raise BlasError, {| mem := mem s; calls := calls s ++ [Copy x y];
                              next_id := next_id s |}).

(** [z.values[:] = 0] *)
Definition fill_zero (z : loc) : M unit :=
  fun s => (Ok tt, {| mem := upd (mem s) z (repeat fzero (length (mem s z)));
                      calls := calls s;
                      next_id := next_id s |}).

(** *** [RN.linCombImpl]

    [fuel] bounds the depth of the Python call stack: running out of it
    is the outcome [OutOfFuel]. *)
Fixpoint linCombImpl (fuel : nat) (self : RN)
         (z : Vector) (a : F) (x : Vector) (b : F) (y : Vector) : M unit :=
  match fuel with
  | O => out_of_fuel
  | S fuel' =>
    if is_ x y && fneb b fzero then
      linCombImpl fuel' self z (fadd a b) x fzero x
    else if is_ z x && is_ z y then
      _scal (fadd a b) (values z)
    else if is_ z x then
      when (fneb a fone) (_scal a (values z)) ;;
      when (fneb b fzero) (_axpy (values y) (values z) (_n self) b)
    else if is_ z y then
      when (fneb b fone) (_scal b (values z)) ;;
      when (fneb a fzero) (_axpy (values x) (values z) (_n self) a)
    else
      if feqb b fzero then
        if feqb a fzero then
          fill_zero (values z)
        else
          _copy (values x) (values z) ;;
          when (fneb a fone) (_scal a (values z))
      else
        if feqb a fzero then
          _copy (values y) (values z) ;;
          when (fneb b fone) (_scal b (values z))
        else if feqb a fone then
          _copy (values x) (values z) ;;
          _axpy (values y) (values z) (_n self) b
        else
          _copy (values y) (values z) ;;
          when (fneb b fone) (_scal b (values z)) ;;
          _axpy (values x) (values z) (_n self) a
  end.

(** *** The dispatch on contents

    What [axpy(x, z, n, a)] writes to full-length buffers, and what
    [if a != 1: scal(a, z)] leaves. *)
Definition add_scaled (a : F) (xs zs : list F) : list F :=
  zip_with (fun xi zi => fadd zi (fmul a xi)) xs zs.

Definition scaled (a : F) (zs : list F) : list F :=
  if fneb a fone then map (fmul a) zs else zs.

(** What the branches of [linCombImpl] after the first leave in [z]'s
    buffer, on the contents [xs], [ys], [zs] the three buffers had: each
    BLAS call is replaced by what it writes.  [zx] and [zy] stand for
    [z is x] and [z is y].  [linCombImpl_direct_run] below relates it to
    the run on the store. *)
Definition dispatch_result (zx zy : bool) (a : F) (xs : list F) (b : F) (ys zs : list F)
  : list F :=
  if zx && zy then map (fmul (fadd a b)) zs
  else if zx then
    if fneb b fzero then add_scaled b ys (scaled a zs) else scaled a zs
  else if zy then
    if fneb a fzero then add_scaled a xs (scaled b zs) else scaled b zs
  else
    if feqb b fzero then
      if feqb a fzero then repeat fzero (length zs) else scaled a xs
    else
      if feqb a fzero then scaled b ys
      else if feqb a fone then add_scaled b ys xs
      else add_scaled a xs (scaled b ys).


(** The element-wise reference [a*x_i + b*y_i]. *)
Definition lincomb_ref (a : F) (xs : list F) (b : F) (ys : list F) : list F :=
  zip_with (fun xi yi => fadd (fmul a xi) (fmul b yi)) xs ys.

(** Modelled from the spec: the public entry point [linComb] lives in
    [LinearSpace] (RL/space/space.py), which is not among the sources.
    Following the spec, a vector belongs to the space when its owning
    space equals it ([RN.equals]: same [n]); the three vectors are checked
    before the implementation is entered, and the failure is the spec's
    DimensionMismatch.  [contains] is that membership. *)
Definition contains (self : RN) (v : Vector) : bool := equals self (space v).

(** Modelled from the spec: [LinearSpace.linComb], the check of the three
    vectors and then the call of the implementation. *)
Definition linComb (fuel : nat) (self : RN)
           (z : Vector) (a : F) (x : Vector) (b : F) (y : Vector) : M unit :=
  if contains self z && contains self x && contains self y
  then linCombImpl fuel self z a x b y
  else raise DimensionMismatch.


(** *** [RN.makeVector]

    What [makeVector] is given: a float64 array that exists already, or a
    flat sequence of numbers for [numpy.array] to convert. *)
Inductive array_arg : Type :=
| NdArray (arr : loc)
| ArrayLike (xs : list F).

(** The first branch: the shape is checked (the element type is float64
    throughout) and the array itself becomes the vector's [values]. *)
Definition makeVector_ndarray (self : RN) (arr : loc) : M Vector :=
  fun s =>
    if negb (Z.of_nat (length (mem s arr)) =? _n self)%Z
    then (Raise ValueError, s)
    else (Ok (mkVector (next_id s) self arr),
          {| mem := mem s; calls := calls s; next_id := S (next_id s) |}).

(** The second branch builds a new array and calls [makeVector] on it;
    that call takes the first branch. *)
Definition makeVector (self : RN) (arg : array_arg) : M Vector :=
  match arg with
  | NdArray arr => makeVector_ndarray self arr
  | ArrayLike xs =>
    fun s => makeVector_ndarray self (next_id s)
               {| mem := upd (mem s) (next_id s) xs; calls := calls s;
                  next_id := S (next_id s) |}
  end.

(** Every element compares equal to zero. *)
Definition all_zero (xs : list F) : bool := forallb (fun v => feqb v fzero) xs.

(** *** [EuclideanSpace.multiplyImpl]: [y.values[:] = x.values*y.values] *)

(** NumPy's product of two one-dimensional arrays: element-wise, an array
    of length one being stretched to the other's length. *)
Definition np_multiply (xs ys : list F) : option (list F) :=
  if Nat.eqb (length xs) (length ys) then Some (zip_with fmul xs ys)
  else match xs, ys with
       | [x], _ => Some (map (fun y => fmul x y) ys)
       | _, [y] => Some (map (fun x => fmul x y) xs)
       | _, _ => None
       end.

(** NumPy's [dst[:] = src]: same length, or [src] of length one. *)
Definition np_assign (src dst : list F) : option (list F) :=
  if Nat.eqb (length src) (length dst) then Some src
  else match src with
       | [v] => Some (repeat v (length dst))
       | _ => None
       end.

Definition multiplyImpl (self : RN) (x y : Vector) : M unit :=
  fun s =>
    match np_multiply (mem s (values x)) (mem s (values y)) with
    | None => (Raise ValueError, s)
    | Some prod =>
      match np_assign prod (mem s (values y)) with
      | None => (Raise ValueError, s)
      | Some v => (Ok tt, {| mem := upd (mem s) (values y) v; calls := calls s;
                             next_id := next_id s |})
      end
    end.

End Engine.

Arguments store F : clear implicits.
Arguments blas_call F : clear implicits.
Arguments M F A : clear implicits.

(** A binary64 value that is neither an infinity nor a NaN. *)
Definition finite64 (v : float) : bool :=
  match Prim2SF v with
  | S754_zero _ | S754_finite _ _ _ => true
  | S754_infinity _ | S754_nan => false
  end.

(** Two binary64 values that are one value, or two zeros ([+0.0] and
    [-0.0] compare equal). *)
Definition same64 (u v : float) : Prop :=
  u = v \/ (PrimFloat.eqb u 0 = true /\ PrimFloat.eqb v 0 = true).

(** ** [RN.__init__] *)

(** The Python values a caller may pass for [n]. *)
Inductive pyobj : Type :=
| PyInt (k : Z)
| PyBool (b : bool)
| PyFloat (f : float)
| PyNone
| PyOther.

(** [isinstance(v, Integral)]: [int] and its subclass [bool]. *)
Definition isinstance_Integral (v : pyobj) : bool :=
  match v with
  | PyInt _ | PyBool _ => true
  | _ => false
  end.

(** The integer an [Integral] value stands for ([True] is [1]). *)
Definition int_value (v : pyobj) : Z :=
  match v with
  | PyInt k => k
  | PyBool b => if b then 1 else 0
  | _ => 0
  end.

(** [RN.__init__]: the guard, then [self._n = n].  The BLAS routines
    fetched by [get_blas_funcs] are the ones modelled above.  The message
    formats [np], a name the star imports are taken to provide. *)
Definition RN_init (v : pyobj) : result RN :=
  if negb (isinstance_Integral v) || (int_value v <? 1)%Z
  then Raise TypeError
  else Ok (mkRN (int_value v)).

(** The specification's wording: [v] is a positive integer, of value [k]. *)
Inductive positive_integer : pyobj -> Z -> Prop :=
| positive_int (k : Z) : (1 <= k)%Z -> positive_integer (PyInt k) k
| positive_true : positive_integer (PyBool true) 1%Z.

(** ** Allocation, element access and the inner product *)

(** The further laws of exact arithmetic that the inner product needs to
    be linear in each argument. *)
Class ExactRing (F : Type) `{ExactScalar F} : Prop := {
  fadd_assoc : forall u v w : F, fadd u (fadd v w) = fadd (fadd u v) w;
  fmul_assoc : forall u v w : F, fmul u (fmul v w) = fmul (fmul u v) w;
  fmul_add_distr_l : forall u v w : F, fmul u (fadd v w) = fadd (fmul u v) (fmul u w);
  fmul_0_r : forall u : F, fmul u fzero = fzero
}.
Arguments ExactRing F {_ _}.

Section Access.
Context {F : Type} `{Scalar F}.

(** *** What a call may do to the store *)

(** Whatever its outcome, [m] resizes no buffer, writes no buffer but
    [dst], creates no object, appends at most [k] BLAS calls to the log and
    raises nothing but the error of the BLAS binding. *)
Definition confined {A} (dst : loc) (k : nat) (m : M F A) : Prop :=
  forall s,
    (forall l, length (mem (snd (m s)) l) = length (mem s l)) /\
    (forall l, l <> dst -> mem (snd (m s)) l = mem s l) /\
    next_id (snd (m s)) = next_id s /\
    (exists cs, calls (snd (m s)) = calls s ++ cs /\ (length cs <= k)%nat) /\
    (forall e, fst (m s) = Raise e -> e = BlasError).



(** A vector that exists in [s]: the object and its array have been
    created. *)
Definition known (s : store F) (v : Vector) : Prop :=
  (vid v < next_id s)%nat /\ (values v < next_id s)%nat.

(** *** [RN.zero] and [RN.empty] *)

(** A new array holding [xs]. *)
Definition np_alloc (xs : list F) : M F loc :=
  fun s => (Ok (next_id s),
            {| mem := upd (mem s) (next_id s) xs; calls := calls s;
               next_id := S (next_id s) |}).





(** *** [RN.Vector]: [__len__], [__getitem__], [__setitem__]

    The index is an integer and the value a float; slices are left out.
    The failure [None] is the IndexError NumPy raises. *)

Definition __len__ (v : Vector) : Z := n (space v).

(** The position an integer index stands for in an array of [len]
    elements: indices from [-len] up to [-1] count from the end. *)
Definition np_index (len : nat) (i : Z) : option nat :=
  if (0 <=? i)%Z && (i <? Z.of_nat len)%Z then Some (Z.to_nat i)
  else if (- Z.of_nat len <=? i)%Z && (i <? 0)%Z then Some (Z.to_nat (i + Z.of_nat len))
  else None.

Fixpoint list_set (k : nat) (v : F) (xs : list F) : list F :=
  match xs, k with
  | [], _ => []
  | _ :: xs', O => v :: xs'
  | x :: xs', S k' => x :: list_set k' v xs'
  end.

Definition __getitem__ (v : Vector) (index : Z) (s : store F) : option F :=
  match np_index (length (mem s (values v))) index with
  | Some k => Some (nth k (mem s (values v)) fzero)
  | None => None
  end.

Definition __setitem__ (v : Vector) (index : Z) (value : F) (s : store F)
  : option (store F) :=
  match np_index (length (mem s (values v))) index with
  | Some k => Some {| mem := upd (mem s) (values v) (list_set k value (mem s (values v)));
                      calls := calls s; next_id := next_id s |}
  | None => None
  end.

(** *** [EuclideanSpace.innerImpl] *)

(** The sum BLAS [dot] accumulates, from zero and in index order. *)
Definition dot_list (xs ys : list F) : F := fold_left fadd (zip_with fmul xs ys) fzero.

(** [dot(x, y)] as SciPy binds it: over [len(x)] elements, refusing a
    shorter [y].  It reads the two arrays and writes nothing. *)
Definition _dot (x y : loc) : M F F :=
  fun s =>
    if (length (mem s x) <=? length (mem s y))%nat
    then (Ok (dot_list (mem s x) (mem s y)), s)
    else (Raise BlasError, s).

Definition innerImpl (self : RN) (x y : Vector) : M F F := _dot (values x) (values y).

End Access.

(** ** Concrete runs *)

Module Scenario.
Definition R3 : RN := mkRN 3.
Definition R1 : RN := mkRN 1.

(** The doctest of [linCombImpl]: [x = [1,2,3]] and [y = [4,5,6]] in
    buffers 0 and 1, a third vector [z] from [rn.empty()] in buffer 2, and a
    vector [y1] of [RN(1)] in buffer 3. *)
Definition x3 : Vector := mkVector 10 R3 0.
Definition y3 : Vector := mkVector 11 R3 1.
Definition z3 : Vector := mkVector 12 R3 2.
Definition y1 : Vector := mkVector 13 R1 3.
Definition doctest_store : store float :=
  {| mem := fun l => match l with
                     | 0%nat => [1; 2; 3]
                     | 1%nat => [4; 5; 6]
                     | 2%nat => [nan; infinity; 0]
                     | _ => [7]
                     end%float;
     calls := [];
     next_id := 14 |}.

(** The same vectors over exact integers. *)
Definition exact_store : store Z :=
  {| mem := fun l => match l with
                     | 0%nat => [1; 2; 3]
                     | 1%nat => [4; 5; 6]
                     | 2%nat => [7; 7; 7]
                     | _ => [7]
                     end%Z;
     calls := [];
     next_id := 14 |}.

(** The doctest of [multiplyImpl]: [x = [5,3,2]], [y = [1,2,3]]. *)
Definition multiply_store : store float :=
  {| mem := fun l => match l with
                     | 0%nat => [5; 3; 2]
                     | _ => [1; 2; 3]
                     end%float;
     calls := [];
     next_id := 14 |}.

(** Two arrays of one element, before any vector is made. *)
Definition arrays_store : store float :=
  {| mem := fun _ => [1%float]; calls := []; next_id := 10 |}.

(** Two vectors made by [makeVector] from array 0, a third one from
    array 1, and the store after the three calls. *)
Definition shared_z : Vector := mkVector 10 R1 0.
Definition shared_x : Vector := mkVector 11 R1 0.
Definition own_y : Vector := mkVector 12 R1 1.
Definition shared_store : store float :=
  {| mem := fun _ => [1%float]; calls := []; next_id := 13 |}.

(** Three vectors of [RN(1)]: [one_x] holds [[1]], [inf_y] holds an
    infinity, [out_z] holds [[0]]. *)
Definition one_x : Vector := mkVector 10 R1 0.
Definition inf_y : Vector := mkVector 11 R1 1.
Definition out_z : Vector := mkVector 12 R1 2.
Definition mixed_store : store float :=
  {| mem := fun l => match l with
                     | 0%nat => [1]
                     | 1%nat => [infinity]
                     | _ => [0]
                     end%float;
     calls := [];
     next_id := 13 |}.

(** Two vectors of [RN(1)] whose buffers hold an infinity. *)
Definition inf_v : Vector := mkVector 10 R1 0.
Definition inf_w : Vector := mkVector 11 R1 1.
Definition inf_store : store float :=
  {| mem := fun _ => [infinity]; calls := []; next_id := 12 |}.
End Scenario.



(** * Facts *)

Unset Implicit Arguments.

(** ** Lists *)

Section ListFacts.
Context {A B C : Type}.

Lemma zip_with_length (f : A -> B -> C) xs ys :
  length xs = length ys -> length (zip_with f xs ys) = length xs.
Proof.
  revert ys; induction xs as [|x xs IH]; intros [|y ys] E; simpl in *;
    try discriminate; auto.
Qed.

Lemma zip_with_ext (f g : A -> B -> C) xs ys :
  (forall x y, f x y = g x y) -> zip_with f xs ys = zip_with g xs ys.
Proof.
  intros E; revert ys; induction xs as [|x xs IH]; intros [|y ys]; simpl; auto.
  now rewrite E, IH.
Qed.

Lemma zip_with_flip (f : A -> B -> C) xs ys :
  zip_with f xs ys = zip_with (fun y x => f x y) ys xs.
Proof.
  revert ys; induction xs as [|x xs IH]; intros [|y ys]; simpl; auto.
  now rewrite IH.
Qed.

Lemma zip_with_map_r {B'} (f : A -> B -> C) (g : B' -> B) xs ys :
  zip_with f xs (map g ys) = zip_with (fun x y => f x (g y)) xs ys.
Proof.
  revert ys; induction xs as [|x xs IH]; intros [|y ys]; simpl; auto.
  now rewrite IH.
Qed.

Lemma zip_with_ignore_r (g : A -> C) xs (ys : list B) :
  length xs = length ys -> zip_with (fun x _ => g x) xs ys = map g xs.
Proof.
  revert ys; induction xs as [|x xs IH]; intros [|y ys] E; simpl in *;
    try discriminate; auto.
  now rewrite IH by congruence.
Qed.

Lemma zip_with_diag (f : A -> A -> C) xs :
  zip_with f xs xs = map (fun x => f x x) xs.
Proof. induction xs as [|x xs IH]; simpl; congruence. Qed.

Lemma map_const_repeat (c : C) (xs : list A) :
  map (fun _ => c) xs = repeat c (length xs).
Proof. induction xs as [|x xs IH]; simpl; congruence. Qed.


End ListFacts.

(** ** The store and the BLAS routines *)

Section StoreFacts.
Context {F : Type} `{Scalar F}.

Lemma upd_same (m : loc -> list F) l v : upd m l v l = v.
Proof. unfold upd. now rewrite Nat.eqb_refl. Qed.

Lemma upd_other (m : loc -> list F) l l' v : l' <> l -> upd m l v l' = m l'.
Proof. intros N. unfold upd. now apply Nat.eqb_neq in N as ->. Qed.


Lemma axpy_list_full a k (xs ys : list F) :
  length xs = k -> length ys = k ->
  axpy_list a k xs ys = zip_with (fun x y => fadd y (fmul a x)) xs ys.
Proof.
  intros Ex Ey. unfold axpy_list.
  rewrite <- Ex at 1. rewrite firstn_all.
  rewrite <- Ey. rewrite firstn_all, skipn_all. apply app_nil_r.
Qed.

Lemma copy_list_full (xs ys : list F) :
  length xs = length ys -> copy_list xs ys = xs.
Proof.
  intros E. unfold copy_list. rewrite E, skipn_all. apply app_nil_r.
Qed.

Lemma scal_run a l (s : store F) :
  _scal a l s = (Ok tt, mkStore (upd (mem s) l (map (fmul a) (mem s l)))
                                (calls s ++ [Scal a l]) (next_id s)).
Proof. reflexivity. Qed.

Lemma axpy_run x y k a (s : store F) :
  length (mem s x) = Z.to_nat k -> length (mem s y) = Z.to_nat k ->
  _axpy x y k a s =
  (Ok tt, mkStore (upd (mem s) y
                       (zip_with (fun xi yi => fadd yi (fmul a xi)) (mem s x) (mem s y)))
                  (calls s ++ [Axpy x y k a]) (next_id s)).
Proof.
  intros Ex Ey. unfold _axpy.
  rewrite Ex, Ey, Nat.leb_refl. simpl.
  rewrite <- Ex at 1. now rewrite axpy_list_full by congruence.
Qed.

Lemma copy_run x y (s : store F) :
  length (mem s x) = length (mem s y) ->
  _copy x y s = (Ok tt, mkStore (upd (mem s) y (mem s x)) (calls s ++ [Copy x y])
                                (next_id s)).
Proof.
  intros E. unfold _copy.
  rewrite E, Nat.leb_refl. now rewrite copy_list_full.
Qed.

(** A call that does not reach the recursive branch runs the same
    whatever fuel is left. *)
Lemma linCombImpl_fuel_irrelevant k k' self z a x b y :
  is_ x y && fneb b fzero = false ->
  linCombImpl (S k) self z a x b y = linCombImpl (S k') self z a x b y.
Proof. intros G. simpl. now rewrite G. Qed.

(** The guard of the recursive branch is false for the arguments the
    recursive call passes. *)
Lemma recursive_call_guard (x : Vector) : is_ x x && fneb fzero fzero = false.
Proof. unfold fneb. rewrite feqb_zero_zero. apply andb_false_r. Qed.

Lemma linCombImpl_recurse k self z a x b y :
  is_ x y && fneb b fzero = true ->
  linCombImpl (S k) self z a x b y = linCombImpl k self z (fadd a b) x fzero x.
Proof. intros G. simpl. now rewrite G. Qed.

Lemma is_true_iff u v : is_ u v = true <-> vid u = vid v.
Proof. apply Nat.eqb_eq. Qed.

Lemma is_false_iff u v : is_ u v = false <-> vid u <> vid v.
Proof. apply Nat.eqb_neq. Qed.

Lemma is_refl u : is_ u u = true.
Proof. apply Nat.eqb_refl. Qed.

Lemma exclusive_refl (u : Vector) : exclusive u u.
Proof. split; reflexivity. Qed.

End StoreFacts.

Arguments upd : simpl never.

(** Lengths of buffers in a store reached by a few updates. *)
Ltac buffer_length :=
  simpl; rewrite ?upd_same, ?upd_other, ?length_map by assumption; congruence.

(** Closes a run that ended normally: the final store is the one computed,
    buffers other than the written one are untouched, and the contents of
    the written one remain to be compared. *)
Ltac store_simpl :=
  simpl; repeat (rewrite upd_same || rewrite upd_other by congruence).

Ltac run_done :=
  eexists; split; [reflexivity|];
  split;
  [ store_simpl
  | split;
    [ let l := fresh "l" in intros l ?; store_simpl; reflexivity
    | first [ discriminate 1
            | intros _; simpl; rewrite ?filter_app; simpl; now rewrite ?app_nil_r ] ] ].

(** ** What a call leaves behind *)

Section Run.
Context {F : Type} `{Scalar F}.

(** A call that does not recurse returns normally, leaves
    [dispatch_result] in [z]'s buffer and nothing new elsewhere; when [z] is
    one of the summands it calls no [copy]. *)
Lemma linCombImpl_direct_run k self z a x b y (s : store F) :
  exclusive z x -> exclusive z y ->
  length (mem s (values z)) = Z.to_nat (_n self) ->
  length (mem s (values x)) = Z.to_nat (_n self) ->
  length (mem s (values y)) = Z.to_nat (_n self) ->
  is_ x y && fneb b fzero = false ->
  exists s',
    linCombImpl (S k) self z a x b y s = (Ok tt, s') /\
    mem s' (values z) =
      dispatch_result (is_ z x) (is_ z y) a (mem s (values x)) b (mem s (values y))
                      (mem s (values z)) /\
    (forall l, l <> values z -> mem s' l = mem s l) /\
    (is_ z x || is_ z y = true ->
     filter is_copy (calls s') = filter is_copy (calls s)).
Proof.
  intros Xzx Xzy Lz Lx Ly G. simpl. rewrite G.
  unfold dispatch_result, scaled, add_scaled.
  destruct (is_ z x) eqn:Ezx; destruct (is_ z y) eqn:Ezy; simpl.
  - (* z is x and z is y *)
    run_done. reflexivity.
  - (* z is x *)
    apply is_false_iff in Ezy.
    assert (Nyz : values y <> values z) by (intros E; apply Ezy, Xzy; congruence).
    destruct (fneb a fone) eqn:Ea; destruct (fneb b fzero) eqn:Eb;
      unfold when, bind, ret; rewrite ?scal_run; simpl;
      rewrite ?axpy_run by buffer_length; run_done; reflexivity.
  - (* z is y *)
    apply is_false_iff in Ezx.
    assert (Nxz : values x <> values z) by (intros E; apply Ezx, Xzx; congruence).
    destruct (fneb b fone) eqn:Eb; destruct (fneb a fzero) eqn:Ea;
      unfold when, bind, ret; rewrite ?scal_run; simpl;
      rewrite ?axpy_run by buffer_length; run_done; reflexivity.
  - (* z is neither x nor y *)
    apply is_false_iff in Ezx, Ezy.
    assert (Nxz : values x <> values z) by (intros E; apply Ezx, Xzx; congruence).
    assert (Nyz : values y <> values z) by (intros E; apply Ezy, Xzy; congruence).
    destruct (feqb b fzero) eqn:Eb; destruct (feqb a fzero) eqn:Ea.
    + run_done. reflexivity.
    + unfold bind. rewrite copy_run by congruence.
      destruct (fneb a fone) eqn:Ea1;
        unfold when, ret; rewrite ?scal_run; run_done; reflexivity.
    + unfold bind. rewrite copy_run by congruence.
      destruct (fneb b fone) eqn:Eb1;
        unfold when, ret; rewrite ?scal_run; run_done; reflexivity.
    + destruct (feqb a fone) eqn:Ea1.
      * unfold bind. rewrite copy_run by congruence.
        rewrite axpy_run by buffer_length. run_done. reflexivity.
      * unfold bind. rewrite copy_run by congruence.
        destruct (fneb b fone) eqn:Eb1;
          unfold when, ret; rewrite ?scal_run;
          rewrite axpy_run by buffer_length; run_done; reflexivity.
Qed.


End Run.

(** ** Exact arithmetic: the engine against the reference *)

Section Exact.
Context {F : Type} `{ExactScalar F}.

Lemma fadd_0_r (u : F) : fadd u fzero = u.
Proof. rewrite fadd_comm. apply fadd_0_l. Qed.

Lemma fneb_false (u v : F) : fneb u v = false <-> u = v.
Proof. unfold fneb. rewrite negb_false_iff. apply feqb_eq. Qed.

Lemma lincomb_ref_comm a (xs : list F) b ys :
  lincomb_ref b ys a xs = lincomb_ref a xs b ys.
Proof.
  unfold lincomb_ref. rewrite zip_with_flip.
  apply zip_with_ext; intros; apply fadd_comm.
Qed.

Lemma axpy_scaled_ref a (xs : list F) b ys :
  zip_with (fun xi yi => fadd yi (fmul a xi)) xs (map (fmul b) ys) = lincomb_ref a xs b ys.
Proof.
  unfold lincomb_ref. rewrite zip_with_map_r.
  apply zip_with_ext; intros; apply fadd_comm.
Qed.

Lemma map_fmul_one (xs : list F) : map (fmul fone) xs = xs.
Proof.
  rewrite <- (map_id xs) at 2. apply map_ext; intros; apply fmul_1_l.
Qed.

Lemma axpy_ref a (xs : list F) ys :
  zip_with (fun xi yi => fadd yi (fmul a xi)) xs ys = lincomb_ref a xs fone ys.
Proof. rewrite <- (map_fmul_one ys) at 1. apply axpy_scaled_ref. Qed.

Lemma lincomb_ref_zero_r a (xs ys : list F) :
  length xs = length ys -> lincomb_ref a xs fzero ys = map (fmul a) xs.
Proof.
  intros E. rewrite <- (zip_with_ignore_r (fmul a) xs ys E).
  apply zip_with_ext; intros. now rewrite fmul_0_l, fadd_0_r.
Qed.

Lemma lincomb_ref_zero_l b (xs ys : list F) :
  length xs = length ys -> lincomb_ref fzero xs b ys = map (fmul b) ys.
Proof.
  intros E. rewrite <- lincomb_ref_comm. now apply lincomb_ref_zero_r.
Qed.

Lemma lincomb_ref_diag a b (xs : list F) :
  lincomb_ref a xs b xs = map (fmul (fadd a b)) xs.
Proof.
  unfold lincomb_ref. rewrite zip_with_diag.
  apply map_ext; intros. now rewrite fmul_add_distr_r.
Qed.

Lemma lincomb_ref_zero_zero (xs ys : list F) :
  length xs = length ys -> lincomb_ref fzero xs fzero ys = repeat fzero (length xs).
Proof.
  intros E. rewrite lincomb_ref_zero_r by assumption.
  rewrite <- map_const_repeat. apply map_ext; intros; apply fmul_0_l.
Qed.

(** In exact arithmetic every branch of the dispatch gives the reference. *)
Lemma dispatch_result_exact (zx zy : bool) a (xs : list F) b ys zs :
  length xs = length zs -> length ys = length zs ->
  (zx = true -> xs = zs) -> (zy = true -> ys = zs) ->
  dispatch_result zx zy a xs b ys zs = lincomb_ref a xs b ys.
Proof.
  intros Lx Ly Hx Hy. unfold dispatch_result, scaled, add_scaled.
  destruct zx; destruct zy; simpl;
    [ rewrite (Hx eq_refl), (Hy eq_refl)
    | rewrite (Hx eq_refl)
    | rewrite (Hy eq_refl)
    | ].
  - now rewrite lincomb_ref_diag.
  - destruct (fneb a fone) eqn:Ea; destruct (fneb b fzero) eqn:Eb;
      try (apply fneb_false in Ea; subst a);
      try (apply fneb_false in Eb; subst b).
    + rewrite axpy_scaled_ref. apply lincomb_ref_comm.
    + symmetry. apply lincomb_ref_zero_r. congruence.
    + rewrite axpy_ref. apply lincomb_ref_comm.
    + rewrite lincomb_ref_zero_r by congruence. now rewrite map_fmul_one.
  - destruct (fneb b fone) eqn:Eb; destruct (fneb a fzero) eqn:Ea;
      try (apply fneb_false in Ea; subst a);
      try (apply fneb_false in Eb; subst b).
    + now rewrite axpy_scaled_ref.
    + symmetry. apply lincomb_ref_zero_l. congruence.
    + now rewrite axpy_ref.
    + rewrite lincomb_ref_zero_l by congruence. now rewrite map_fmul_one.
  - destruct (feqb b fzero) eqn:Eb; [apply feqb_eq in Eb; subst b|];
      (destruct (feqb a fzero) eqn:Ea; [apply feqb_eq in Ea; subst a|]).
    + rewrite lincomb_ref_zero_zero by congruence. congruence.
    + destruct (fneb a fone) eqn:Ea1; [|apply fneb_false in Ea1; subst a].
      * symmetry. apply lincomb_ref_zero_r. congruence.
      * rewrite lincomb_ref_zero_r by congruence. now rewrite map_fmul_one.
    + destruct (fneb b fone) eqn:Eb1; [|apply fneb_false in Eb1; subst b].
      * symmetry. apply lincomb_ref_zero_l. congruence.
      * rewrite lincomb_ref_zero_l by congruence. now rewrite map_fmul_one.
    + destruct (feqb a fone) eqn:Ea1; [apply feqb_eq in Ea1; subst a|].
      * rewrite axpy_ref. apply lincomb_ref_comm.
      * destruct (fneb b fone) eqn:Eb1; [|apply fneb_false in Eb1; subst b].
        -- now rewrite axpy_scaled_ref.
        -- now rewrite axpy_ref.
Qed.

Lemma linCombImpl_exact_direct k self z a x b y (s : store F) :
  exclusive z x -> exclusive z y -> exclusive x y ->
  length (mem s (values z)) = Z.to_nat (_n self) ->
  length (mem s (values x)) = Z.to_nat (_n self) ->
  length (mem s (values y)) = Z.to_nat (_n self) ->
  is_ x y && fneb b fzero = false ->
  exists s',
    linCombImpl (S k) self z a x b y s = (Ok tt, s') /\
    mem s' (values z) = lincomb_ref a (mem s (values x)) b (mem s (values y)) /\
    (forall l, l <> values z -> mem s' l = mem s l) /\
    (is_ z x || is_ z y = true ->
     filter is_copy (calls s') = filter is_copy (calls s)).
Proof.
  intros Xzx Xzy Xxy Lz Lx Ly G.
  destruct (linCombImpl_direct_run k self z a x b y s) as (s' & Run & Res & Rest);
    try assumption.
  exists s'. split; [exact Run|]. split; [|exact Rest].
  rewrite Res. apply dispatch_result_exact; try congruence.
  - intros E. apply is_true_iff, Xzx in E. congruence.
  - intros E. apply is_true_iff, Xzy in E. congruence.
Qed.

(** The engine computes the reference for every way the three arguments
    may coincide, as long as different objects own different buffers. *)
Lemma linCombImpl_exact fuel self z a x b y (s : store F) :
  (2 <= fuel)%nat ->
  exclusive z x -> exclusive z y -> exclusive x y ->
  length (mem s (values z)) = Z.to_nat (_n self) ->
  length (mem s (values x)) = Z.to_nat (_n self) ->
  length (mem s (values y)) = Z.to_nat (_n self) ->
  exists s',
    linCombImpl fuel self z a x b y s = (Ok tt, s') /\
    mem s' (values z) = lincomb_ref a (mem s (values x)) b (mem s (values y)) /\
    (forall l, l <> values z -> mem s' l = mem s l) /\
    (is_ z x || is_ z y = true ->
     filter is_copy (calls s') = filter is_copy (calls s)).
Proof.
  intros Hfuel Xzx Xzy Xxy Lz Lx Ly.
  destruct fuel as [|[|k]]; try lia.
  destruct (is_ x y && fneb b fzero) eqn:G.
  - rewrite linCombImpl_recurse by assumption.
    apply andb_true_iff in G as [Exy _].
    assert (Vxy : values x = values y) by (apply Xxy, is_true_iff, Exy).
    assert (Ixy : is_ z y = is_ z x).
    { unfold is_. apply is_true_iff in Exy. now rewrite Exy. }
    rewrite <- Vxy, lincomb_ref_diag, Ixy.
    rewrite <- (lincomb_ref_zero_r (fadd a b) (mem s (values x)) (mem s (values x)) eq_refl).
    apply linCombImpl_exact_direct; auto using exclusive_refl, recursive_call_guard.
  - now apply linCombImpl_exact_direct.
Qed.
End Exact.

#[export] Instance exactZ_laws : ExactScalar Z.
Proof.
  split; simpl; intros.
  - apply Z.eqb_eq.
  - apply Z.add_comm.
  - reflexivity.
  - reflexivity.
  - apply Z.mul_1_l.
  - apply Z.mul_add_distr_r.
Qed.

(** In exact arithmetic a scalar equal to zero is zero. *)
#[export] Instance exact_zero_neutral (F : Type) `{ExactScalar F} : ZeroNeutral F.
Proof.
  split; intros a b Eb; apply feqb_eq in Eb; subst b; intros; now rewrite fadd_0_r.
Qed.

(** ** Binary64: the engine against the reference *)

Section Float64Facts.

(** A scalar equal to zero is [+0.0] or [-0.0]; adding it to [a] gives
    [a], or a zero when [a] is one. *)
Lemma float_eqb_zero_inv (b : float) :
  PrimFloat.eqb b 0 = true -> exists sg, Prim2SF b = S754_zero sg.
Proof.
  rewrite eqb_spec. change (Prim2SF 0) with (S754_zero false).
  destruct (Prim2SF b) as [sg|sg| |sg m e]; simpl; try discriminate.
  - eauto.
  - destruct sg; discriminate.
  - destruct sg; discriminate.
Qed.

Lemma float_add_zero_sf (a b : float) :
  PrimFloat.eqb b 0 = true ->
  match Prim2SF a with
  | S754_zero _ => exists sg, Prim2SF (a + b) = S754_zero sg
  | _ => Prim2SF (a + b) = Prim2SF a
  end.
Proof.
  intros Eb. destruct (float_eqb_zero_inv b Eb) as [sg Zb].
  rewrite add_spec, Zb.
  destruct (Prim2SF a) as [sa|sa| |sa m e]; try reflexivity.
  destruct sa, sg; simpl; eauto.
Qed.

Lemma float_eqb_of_zero (u : float) sg v :
  Prim2SF u = S754_zero sg ->
  PrimFloat.eqb u v = SFeqb (S754_zero false) (Prim2SF v).
Proof. intros E. rewrite eqb_spec, E. reflexivity. Qed.









Lemma same64_refl (u : float) : same64 u u.
Proof. now left. Qed.

Lemma same64_add_zero_r (u t : float) :
  PrimFloat.eqb t 0 = true -> same64 u (u + t).
Proof.
  intros Et. pose proof (float_add_zero_sf u t Et) as S.
  destruct (Prim2SF u) as [su|su| |su m e] eqn:Eu;
    try (left; symmetry; apply Prim2SF_inj; congruence).
  destruct S as [sg S]. right.
  now rewrite (float_eqb_of_zero _ su _ Eu), (float_eqb_of_zero _ sg _ S).
Qed.






End Float64Facts.

#[export] Instance float64_zero_neutral : ZeroNeutral float.
Proof.
  split; simpl; intros a b Eb.
  - pose proof (float_add_zero_sf a b Eb) as S.
    destruct (Prim2SF a) as [sa|sa| |sa m e] eqn:Ea.
    + destruct S as [sg S].
      now rewrite (float_eqb_of_zero _ sg _ S), (float_eqb_of_zero _ sa _ Ea).
    + now rewrite !eqb_spec, S, Ea.
    + now rewrite !eqb_spec, S, Ea.
    + now rewrite !eqb_spec, S, Ea.
  - pose proof (float_add_zero_sf a b Eb) as S.
    destruct (Prim2SF a) as [sa|sa| |sa m e] eqn:Ea.
    + destruct S as [sg S].
      now rewrite (float_eqb_of_zero _ sg _ S), (float_eqb_of_zero _ sa _ Ea).
    + now rewrite !eqb_spec, S, Ea.
    + now rewrite !eqb_spec, S, Ea.
    + now rewrite !eqb_spec, S, Ea.
  - intros Ea0. pose proof (float_add_zero_sf a b Eb) as S.
    apply Prim2SF_inj.
    destruct (Prim2SF a) as [sa|sa| |sa m e] eqn:Ea; try (now rewrite S).
    rewrite (float_eqb_of_zero _ sa _ Ea) in Ea0. discriminate.
Qed.

(** Scaling by zero leaves a zero where the element was finite, and a NaN
    elsewhere. *)
Section ZeroZero.
Lemma float_zero_mul_eqb (v : float) : PrimFloat.eqb (0 * v) 0 = finite64 v.
Proof.
  unfold finite64. rewrite eqb_spec, mul_spec.
  change (Prim2SF 0) with (S754_zero false).
  destruct (Prim2SF v) as [sg|sg| |sg m e]; reflexivity.
Qed.

Lemma all_zero_scaled_by_zero (xs : list float) :
  all_zero (map (fmul fzero) xs) = forallb finite64 xs.
Proof.
  unfold all_zero. induction xs as [|v xs IH]; simpl; [reflexivity|].
  now rewrite float_zero_mul_eqb, <- IH.
Qed.
End ZeroZero.

(** ** Every branch returns *)

Section Termination.
Context {F : Type} `{Scalar F}.

Lemma returns_bind {A B} (m : M F A) (k : A -> M F B) :
  returns m -> (forall a, returns (k a)) -> returns (bind m k).
Proof.
  intros Hm Hk s. unfold bind. specialize (Hm s).
  destruct (m s) as [[a| |] s']; simpl in *; [apply Hk | reflexivity | discriminate].
Qed.

Lemma returns_when c (m : M F unit) : returns m -> returns (when c m).
Proof. intros Hm. destruct c; simpl; [assumption|]. now intros s. Qed.

Lemma returns_scal (a : F) l : returns (_scal a l).
Proof. now intros s. Qed.

Lemma returns_axpy x y k (a : F) : returns (_axpy x y k a).
Proof. intros s. unfold _axpy. now destruct (_ && _). Qed.

Lemma returns_copy x y : returns (F := F) (_copy x y).
Proof. intros s. unfold _copy. now destruct (_ <=? _)%nat. Qed.

Lemma returns_fill_zero l : returns (F := F) (fill_zero l).
Proof. now intros s. Qed.

Create HintDb returns.
Hint Resolve returns_bind returns_when returns_scal returns_axpy returns_copy
     returns_fill_zero : returns.

(** Every branch but the first one ends after a few BLAS calls. *)
Lemma linCombImpl_direct_returns k self z (a : F) x b y :
  is_ x y && fneb b fzero = false ->
  returns (linCombImpl (S k) self z a x b y).
Proof.
  intros G. simpl. rewrite G.
  repeat match goal with
         | |- returns (if ?c then _ else _) => destruct c
         end; auto 6 with returns.
Qed.
End Termination.

(** * The engine *)

(** ** Non-aliased arguments *)




(** ** Aliased arguments *)

(** Vectors on one array come out of the constructor itself: [makeVector]
    called twice on array 0 and once on array 1 returns the three vectors
    of the scenario below. *)
Lemma makeVector_shares_the_array :
  bind (makeVector Scenario.R1 (NdArray 0)) (fun z =>
  bind (makeVector Scenario.R1 (NdArray 0)) (fun x =>
  bind (makeVector Scenario.R1 (NdArray 1)) (fun y =>
  ret (z, x, y)))) Scenario.arrays_store =
  (Ok (Scenario.shared_z, Scenario.shared_x, Scenario.own_y), Scenario.shared_store).
Proof. reflexivity. Qed.




(** ** Dimension check of the entry point *)

(** C3. When [z], [x] and [y] do not all have one dimension, [linComb]
    raises DimensionMismatch and hands back the store it was given: no BLAS
    routine has been called and no buffer, [z]'s included, has changed. *)
Theorem linComb_dimension_mismatch :
  forall (F : Type) (SF : Scalar F)
         (fuel : nat) (self : RN) (z x y : Vector) (a b : F) (s : store F),
    ~ (_n (space z) = _n (space x) /\ _n (space x) = _n (space y)) ->
    linComb fuel self z a x b y s = (Raise DimensionMismatch, s).
Proof.
  intros F SF fuel self z x y a b s Mismatch.
  unfold linComb, contains, equals.
  destruct (_n self =? _n (space z))%Z eqn:Ez;
    destruct (_n self =? _n (space x))%Z eqn:Ex;
    destruct (_n self =? _n (space y))%Z eqn:Ey; try reflexivity.
  apply Z.eqb_eq in Ez, Ex, Ey. exfalso. apply Mismatch. split; congruence.
Qed.

Lemma linComb_dimension_mismatch_witness :
  linComb 2 Scenario.R3 Scenario.z3 2%float Scenario.x3 3%float Scenario.y1
          Scenario.doctest_store =
  (Raise DimensionMismatch, Scenario.doctest_store).
Proof.
  refine (linComb_dimension_mismatch float _ 2%nat Scenario.R3 Scenario.z3
            Scenario.x3 Scenario.y1 2%float 3%float Scenario.doctest_store _).
  simpl. intros [_ E]. discriminate E.
Defined.

(** The implementation alone checks nothing: called on a [y] of [RN(1)] it
    copies the one element over the head of [z]'s buffer, scales and adds,
    and returns normally. *)
Lemma linCombImpl_checks_no_dimension :
  let r := linCombImpl 2 Scenario.R3 Scenario.z3 2%float Scenario.x3 3%float Scenario.y1
                       Scenario.doctest_store in
  fst r = Ok tt /\
  calls (snd r) = [Copy 3 2; Scal 3%float 2; Axpy 0 2 3 2%float] /\
  mem (snd r) (values Scenario.z3) = [23; infinity; 6]%float.
Proof. vm_compute. repeat split; reflexivity. Qed.

(** ** The same summand twice *)

(** C4. For a result vector [z] that is another object than [x], the call
    [linCombImpl z a x b x] runs exactly as [linCombImpl z (a+b) x 0 x]:
    same outcome, same buffers, same BLAS calls.  It holds for exact
    scalars and for binary64. *)
Theorem linCombImpl_same_summand_collapses :
  forall (F : Type) (SF : Scalar F) (ZF : ZeroNeutral F)
         (fuel : nat) (self : RN) (z x : Vector) (a b : F) (s : store F),
    (2 <= fuel)%nat ->
    vid z <> vid x ->
    linCombImpl fuel self z a x b x s = linCombImpl fuel self z (fadd a b) x fzero x s.
Proof.
  intros F SF ZF fuel self z x a b s Hfuel Nzx.
  destruct fuel as [|[|k]]; try lia.
  destruct (is_ x x && fneb b fzero) eqn:G.
  - rewrite linCombImpl_recurse by assumption.
    now rewrite (linCombImpl_fuel_irrelevant k (S k)) by apply recursive_call_guard.
  - rewrite is_refl in G. simpl in G. unfold fneb in G.
    apply negb_false_iff in G.
    apply is_false_iff in Nzx.
    simpl. unfold fneb. rewrite !is_refl, G, feqb_zero_zero, Nzx. simpl.
    rewrite (fadd_zero_eqb0 a b G), (fadd_zero_eqb1 a b G).
    destruct (feqb a fzero) eqn:Ea; [reflexivity|].
    now rewrite (fadd_zero_keep a b G Ea).
Qed.

Lemma linCombImpl_same_summand_collapses_witness :
  linCombImpl 2 Scenario.R3 Scenario.z3 2%float Scenario.x3 3%float Scenario.x3
              Scenario.doctest_store =
  linCombImpl 2 Scenario.R3 Scenario.z3 5%float Scenario.x3 0%float Scenario.x3
              Scenario.doctest_store.
Proof.
  refine (linCombImpl_same_summand_collapses float _ _ 2%nat Scenario.R3
            Scenario.z3 Scenario.x3 2%float 3%float Scenario.doctest_store _ _);
    simpl; lia.
Defined.

(** ** In place against fresh-then-copy *)




(** ** Both coefficients zero *)

(** C6, as stated, fails on an aliased call: with [z] and [x] the same
    vector, holding an infinity, [linCombImpl z 0 z 0 y] scales the buffer
    by zero and leaves a NaN. *)
Lemma linCombImpl_zero_zero_aliased_nan :
  let r := linCombImpl 2 Scenario.R1 Scenario.inf_v 0%float Scenario.inf_v
                       0%float Scenario.inf_w Scenario.inf_store in
  fst r = Ok tt /\
  calls (snd r) = [Scal 0%float 0] /\
  mem (snd r) (values Scenario.inf_v) = [nan] /\
  all_zero (mem (snd r) (values Scenario.inf_v)) = false.
Proof. vm_compute. repeat split; reflexivity. Qed.

(** C6, amended.  When [z] is another object than [x] and [y] (which may
    be one object), [linCombImpl z a x b y] with [a] and [b] equal to zero
    fills [z]'s buffer with zeros whatever the buffers hold, issues no BLAS
    call and touches nothing else.  When [z] is [x] or [y], the binary64
    buffer is instead multiplied by zero in place, so it ends all zero
    exactly when every element it held was finite. *)
Theorem linCombImpl_zero_zero :
  (forall (F : Type) (SF : Scalar F)
          (fuel : nat) (self : RN) (z x y : Vector) (a b : F) (s : store F),
      feqb a fzero = true -> feqb b fzero = true ->
      vid z <> vid x -> vid z <> vid y ->
      linCombImpl (S fuel) self z a x b y s =
      (Ok tt, mkStore (upd (mem s) (values z) (repeat fzero (length (mem s (values z)))))
                      (calls s) (next_id s))) /\
  (forall (fuel : nat) (self : RN) (z x y : Vector) (s : store float),
      vid z = vid x \/ vid z = vid y ->
      exists s',
        linCombImpl (S fuel) self z 0%float x 0%float y s = (Ok tt, s') /\
        mem s' (values z) = map (PrimFloat.mul 0) (mem s (values z)) /\
        all_zero (mem s' (values z)) = forallb finite64 (mem s (values z))).
Proof.
  split.
  - intros F SF fuel self z x y a b s Ea Eb Nzx Nzy.
    apply is_false_iff in Nzx, Nzy.
    simpl. unfold fneb. rewrite Ea, Eb, Nzx, Nzy. simpl.
    now rewrite andb_false_r.
  - intros fuel self z x y s Alias.
    assert (Run : linCombImpl (S fuel) self z 0%float x 0%float y s =
                  _scal 0%float (values z) s).
    { simpl. rewrite andb_false_r.
      destruct (is_ z x) eqn:Ezx; destruct (is_ z y) eqn:Ezy; simpl; try reflexivity.
      apply is_false_iff in Ezx, Ezy. tauto. }
    rewrite Run, scal_run. eexists; split; [reflexivity|]. simpl.
    rewrite upd_same. split; [reflexivity|].
    apply all_zero_scaled_by_zero.
Qed.

Lemma linCombImpl_zero_zero_witness :
  linCombImpl 2 Scenario.R1 Scenario.inf_w 0%float Scenario.inf_v 0%float Scenario.inf_v
              Scenario.inf_store =
  (Ok tt, mkStore (upd (mem Scenario.inf_store) 1%nat [0%float]) [] 12) /\
  exists s',
    linCombImpl 2 Scenario.R1 Scenario.inf_v 0%float Scenario.inf_v 0%float Scenario.inf_w
                Scenario.inf_store = (Ok tt, s') /\
    mem s' 0%nat = [nan] /\
    all_zero (mem s' 0%nat) = false.
Proof.
  split.
  - refine (proj1 linCombImpl_zero_zero float _ 1%nat Scenario.R1 Scenario.inf_w
                  Scenario.inf_v Scenario.inf_v 0%float 0%float Scenario.inf_store
                  _ _ _ _);
      try reflexivity; simpl; lia.
  - refine (proj2 linCombImpl_zero_zero 1%nat Scenario.R1 Scenario.inf_v
                  Scenario.inf_v Scenario.inf_w Scenario.inf_store _).
    left; reflexivity.
Defined.

(** ** Pointwise product *)

(** C8. For [x] and [y] of one dimension, [multiplyImpl x y] overwrites
    [y]'s buffer with the element-wise product of the two buffers and
    touches no other buffer (so [x] keeps its contents when it does not
    share [y]'s buffer); with the same vector twice it squares it in place;
    [multiplyImpl [5,3,2] [1,2,3]] leaves [[5,6,6]] in [y]. *)
Theorem multiplyImpl_pointwise_product :
  (forall (F : Type) (SF : Scalar F) (self : RN) (x y : Vector) (s : store F),
      length (mem s (values x)) = length (mem s (values y)) ->
      exists s',
        multiplyImpl self x y s = (Ok tt, s') /\
        mem s' (values y) = zip_with fmul (mem s (values x)) (mem s (values y)) /\
        (forall l, l <> values y -> mem s' l = mem s l) /\
        calls s' = calls s) /\
  (forall (F : Type) (SF : Scalar F) (self : RN) (y : Vector) (s : store F),
      exists s',
        multiplyImpl self y y s = (Ok tt, s') /\
        mem s' (values y) = map (fun v => fmul v v) (mem s (values y))) /\
  (let r := multiplyImpl Scenario.R3 Scenario.x3 Scenario.y3 Scenario.multiply_store in
   fst r = Ok tt /\
   mem (snd r) (values Scenario.y3) = [5; 6; 6]%float /\
   mem (snd r) (values Scenario.x3) = [5; 3; 2]%float).
Proof.
  assert (General : forall (F : Type) (SF : Scalar F) (self : RN) (x y : Vector)
                           (s : store F),
             length (mem s (values x)) = length (mem s (values y)) ->
             multiplyImpl self x y s =
             (Ok tt, mkStore (upd (mem s) (values y)
                                  (zip_with fmul (mem s (values x)) (mem s (values y))))
                           (calls s) (next_id s))).
  { intros F SF self x y s E. unfold multiplyImpl, np_multiply, np_assign.
    rewrite E, Nat.eqb_refl, zip_with_length by assumption.
    now rewrite E, Nat.eqb_refl. }
  split; [|split].
  - intros F SF self x y s E. rewrite General by assumption.
    eexists; split; [reflexivity|]. simpl. rewrite upd_same.
    repeat split. intros l N. now apply upd_other.
  - intros F SF self y s. rewrite General by reflexivity.
    eexists; split; [reflexivity|]. simpl. rewrite upd_same.
    apply zip_with_diag.
  - vm_compute. repeat split; reflexivity.
Qed.

Lemma multiplyImpl_pointwise_product_witness :
  exists s',
    multiplyImpl Scenario.R3 Scenario.x3 Scenario.y3 Scenario.multiply_store = (Ok tt, s') /\
    mem s' 1%nat = [5; 6; 6]%float /\
    (forall l, l <> 1%nat -> mem s' l = mem Scenario.multiply_store l) /\
    calls s' = [].
Proof.
  refine (proj1 multiplyImpl_pointwise_product float _ Scenario.R3 Scenario.x3
                Scenario.y3 Scenario.multiply_store _).
  reflexivity.
Defined.

(** ** Construction *)

(** C9. [RN(n)] succeeds, with dimension [n], when [n] is a positive
    integer, and raises [TypeError] (the specification's InvalidArgument)
    without building a space for every other value. *)
Theorem RN_init_positive_integer :
  forall v : pyobj,
    (forall k, positive_integer v k ->
               RN_init v = Ok (mkRN k) /\ n (mkRN k) = k) /\
    ((forall k, ~ positive_integer v k) -> RN_init v = Raise TypeError).
Proof.
  intros v. split.
  - intros k P. destruct P as [k Hk|]; [|split; reflexivity].
    unfold RN_init. simpl.
    apply Z.ltb_ge in Hk. rewrite Hk. split; reflexivity.
  - intros Npos. unfold RN_init.
    destruct v as [k|[|]|f| |]; simpl; try reflexivity.
    + destruct (k <? 1)%Z eqn:Hk; [reflexivity|].
      apply Z.ltb_ge in Hk. exfalso. apply (Npos k). now constructor.
    + exfalso. apply (Npos 1%Z). constructor.
Qed.

Lemma RN_init_positive_integer_witness :
  (RN_init (PyInt 3) = Ok (mkRN 3) /\ n (mkRN 3) = 3%Z) /\
  RN_init (PyInt 0) = Raise TypeError.
Proof.
  split.
  - refine (proj1 (RN_init_positive_integer (PyInt 3)) 3%Z _).
    constructor. lia.
  - refine (proj2 (RN_init_positive_integer (PyInt 0)) _).
    intros k P. inversion P. lia.
Defined.

(** ** Termination *)

(** C10. [linCombImpl] terminates on every input.  Two stack frames are
    always enough and further ones change nothing; one frame is not enough
    exactly when [x is y and b != 0], the only case with a recursive call;
    and that call passes [x] twice and [b = 0], for which the guard is
    false. *)
Theorem linCombImpl_terminates :
  forall (F : Type) (SF : Scalar F)
         (fuel : nat) (self : RN) (z : Vector) (a : F) (x : Vector) (b : F) (y : Vector)
         (s : store F),
    is_out_of_fuel (fst (linCombImpl (S (S fuel)) self z a x b y s)) = false /\
    linCombImpl (S (S fuel)) self z a x b y s = linCombImpl 2 self z a x b y s /\
    is_out_of_fuel (fst (linCombImpl 1 self z a x b y s)) = is_ x y && fneb b fzero /\
    is_ x x && fneb (fzero : F) fzero = false.
Proof.
  intros F SF fuel self z a x b y s.
  destruct (is_ x y && fneb b fzero) eqn:G.
  - rewrite (linCombImpl_recurse (S fuel) self z a x b y G),
            (linCombImpl_recurse 1 self z a x b y G),
            (linCombImpl_recurse 0 self z a x b y G).
    split; [|split; [|split]].
    + apply linCombImpl_direct_returns, recursive_call_guard.
    + apply (f_equal (fun m => m s)).
      apply linCombImpl_fuel_irrelevant, recursive_call_guard.
    + reflexivity.
    + apply recursive_call_guard.
  - split; [|split; [|split]].
    + now apply linCombImpl_direct_returns.
    + apply (f_equal (fun m => m s)). now apply linCombImpl_fuel_irrelevant.
    + now apply linCombImpl_direct_returns.
    + apply recursive_call_guard.
Qed.

(** * The rest of the module *)

(** ** What a call of the engine may do to the store *)

Section Confined.
Context {F : Type} `{Scalar F}.

Lemma length_upd_same_length (m : loc -> list F) l v l' :
  length v = length (m l) -> length (upd m l v l') = length (m l').
Proof.
  intros E. unfold upd. destruct (Nat.eqb l' l) eqn:El; [|reflexivity].
  apply Nat.eqb_eq in El. now subst.
Qed.

Lemma zip_with_length_min {A B C} (f : A -> B -> C) xs ys :
  length (zip_with f xs ys) = Nat.min (length xs) (length ys).
Proof.
  revert ys; induction xs as [|x xs IH]; intros [|y ys]; simpl; auto.
Qed.

Lemma axpy_list_length a k (xs ys : list F) :
  (k <= length xs)%nat -> (k <= length ys)%nat ->
  length (axpy_list a k xs ys) = length ys.
Proof.
  intros Lx Ly. unfold axpy_list.
  rewrite length_app, zip_with_length_min, !length_firstn, length_skipn. lia.
Qed.

Lemma copy_list_length (xs ys : list F) :
  (length xs <= length ys)%nat -> length (copy_list xs ys) = length ys.
Proof. intros L. unfold copy_list. rewrite length_app, length_skipn. lia. Qed.

Lemma confined_mono {A} dst k k' (m : M F A) :
  (k <= k')%nat -> confined dst k m -> confined dst k' m.
Proof.
  intros Le Hm s. destruct (Hm s) as (L & Fr & Id & (cs & Ec & Lc) & Er).
  repeat split; auto. exists cs. split; [assumption|lia].
Qed.

Lemma confined_ret {A} dst (a : A) : confined (F := F) dst 0 (ret a).
Proof.
  intros s. simpl. repeat split; auto; try discriminate.
  exists []. now rewrite app_nil_r.
Qed.

Lemma confined_out_of_fuel {A} dst : confined (F := F) (A := A) dst 0 out_of_fuel.
Proof.
  intros s. simpl. repeat split; auto; try discriminate.
  exists []. now rewrite app_nil_r.
Qed.

Lemma confined_bind {A B} dst k1 k2 (m : M F A) (f : A -> M F B) :
  confined dst k1 m -> (forall a, confined dst k2 (f a)) ->
  confined dst (k1 + k2) (bind m f).
Proof.
  intros Hm Hf s. unfold bind.
  destruct (Hm s) as (L & Fr & Id & (cs & Ec & Lc) & Er).
  destruct (m s) as [[a|e|] s1]; simpl in *.
  - destruct (Hf a s1) as (L' & Fr' & Id' & (cs' & Ec' & Lc') & Er').
    split; [|split; [|split; [|split]]].
    + intros l. now rewrite L', L.
    + intros l N. now rewrite Fr', Fr.
    + congruence.
    + exists (cs ++ cs'). rewrite Ec', Ec, <- app_assoc, length_app.
      split; [reflexivity|lia].
    + assumption.
  - split; [|split; [|split; [|split]]]; try assumption.
    + exists cs. split; [assumption|lia].
    + intros e0 E. apply Er. now inversion E.
  - split; [|split; [|split; [|split]]]; try assumption; try discriminate.
    exists cs. split; [assumption|lia].
Qed.

Lemma confined_when dst k c (m : M F unit) :
  confined dst k m -> confined dst k (when c m).
Proof.
  intros Hm. destruct c; [exact Hm|].
  apply confined_mono with (k := 0%nat); [lia|apply confined_ret].
Qed.

Lemma confined_scal (a : F) l : confined l 1 (_scal a l).
Proof.
  intros s. simpl. repeat split; try discriminate.
  - intros l'. apply length_upd_same_length, length_map.
  - intros l' N. now apply upd_other.
  - exists [Scal a l]. split; [reflexivity|simpl; lia].
Qed.

Lemma confined_axpy x y k (a : F) : confined y 1 (_axpy x y k a).
Proof.
  intros s. unfold _axpy.
  destruct (_ && _) eqn:G; simpl.
  - apply andb_true_iff in G as [Lx Ly]. apply Nat.leb_le in Lx, Ly.
    repeat split; try discriminate.
    + intros l'. now apply length_upd_same_length, axpy_list_length.
    + intros l' N. now apply upd_other.
    + exists [Axpy x y k a]. split; [reflexivity|simpl; lia].
  - repeat split; try congruence.
    exists [Axpy x y k a]. split; [reflexivity|simpl; lia].
Qed.

Lemma confined_copy x y : confined (F := F) y 1 (_copy x y).
Proof.
  intros s. unfold _copy.
  destruct (_ <=? _)%nat eqn:G; simpl.
  - apply Nat.leb_le in G.
    repeat split; try discriminate.
    + intros l'. now apply length_upd_same_length, copy_list_length.
    + intros l' N. now apply upd_other.
    + exists [Copy x y]. split; [reflexivity|simpl; lia].
  - repeat split; try congruence.
    exists [Copy x y]. split; [reflexivity|simpl; lia].
Qed.

Lemma confined_fill_zero l : confined (F := F) l 0 (fill_zero l).
Proof.
  intros s. simpl. repeat split; try discriminate.
  - intros l'. apply length_upd_same_length, repeat_length.
  - intros l' N. now apply upd_other.
  - exists []. now rewrite app_nil_r.
Qed.

(** The budget of three calls is that of the last branch: [copy], [scal],
    [axpy]. *)
Lemma linCombImpl_confined fuel self z (a : F) x b y :
  confined (values z) 3 (linCombImpl fuel self z a x b y).
Proof.
  revert a b y. induction fuel as [|fuel IH]; intros a b y.
  - apply confined_mono with (k := 0%nat); [lia|apply confined_out_of_fuel].
  - simpl.
    repeat match goal with
           | |- confined _ _ (if ?c then _ else _) => destruct c
           end;
      try apply IH;
      (eapply confined_mono;
       [| repeat first [ apply confined_bind; [|intros _]
                       | apply confined_when
                       | apply confined_scal
                       | apply confined_axpy
                       | apply confined_copy
                       | apply confined_fill_zero ] ];
       simpl; lia).
Qed.

End Confined.

(** ** When a call of the engine succeeds *)

Section Success.
Context {F : Type} `{Scalar F}.




Variable N : nat.
Variable ls : list loc.







End Success.

(** ** What a call leaves in [z], recursion included *)

Section RunAny.
Context {F : Type} `{Scalar F}.

Lemma linCombImpl_run fuel self z a x b y (s : store F) :
  (2 <= fuel)%nat ->
  exclusive z x -> exclusive z y ->
  length (mem s (values z)) = Z.to_nat (_n self) ->
  length (mem s (values x)) = Z.to_nat (_n self) ->
  length (mem s (values y)) = Z.to_nat (_n self) ->
  exists s',
    linCombImpl fuel self z a x b y s = (Ok tt, s') /\
    mem s' (values z) =
      (if is_ x y && fneb b fzero
       then dispatch_result (is_ z x) (is_ z x) (fadd a b) (mem s (values x))
                            fzero (mem s (values x)) (mem s (values z))
       else dispatch_result (is_ z x) (is_ z y) a (mem s (values x)) b (mem s (values y))
                            (mem s (values z))) /\
    (forall l, l <> values z -> mem s' l = mem s l).
Proof.
  intros Hfuel Xzx Xzy Lz Lx Ly. destruct fuel as [|[|k]]; try lia.
  destruct (is_ x y && fneb b fzero) eqn:G.
  - rewrite linCombImpl_recurse by assumption.
    destruct (linCombImpl_direct_run k self z (fadd a b) x fzero x s)
      as (s' & Run & Res & Frame & _); auto using recursive_call_guard.
    exists s'. auto.
  - destruct (linCombImpl_direct_run (S k) self z a x b y s)
      as (s' & Run & Res & Frame & _); auto.
    exists s'. auto.
Qed.

(** When [z] is another object than the summands, the dispatch reads the
    old contents of [z] for their number only. *)
Lemma dispatch_result_fresh (a : F) xs b ys zs zs' :
  length zs = length zs' ->
  dispatch_result false false a xs b ys zs = dispatch_result false false a xs b ys zs'.
Proof. intros E. unfold dispatch_result. simpl. now rewrite E. Qed.

(** Two runs into a result vector that is no summand, from stores that
    differ in that vector's buffer only, end with the same buffers. *)
Lemma linCombImpl_result_independent fuel self z x y a b (s1 s2 : store F) :
  (2 <= fuel)%nat ->
  non_aliased z x -> non_aliased z y ->
  (forall l, l <> values z -> mem s1 l = mem s2 l) ->
  length (mem s1 (values z)) = Z.to_nat (_n self) ->
  length (mem s2 (values z)) = Z.to_nat (_n self) ->
  length (mem s1 (values x)) = Z.to_nat (_n self) ->
  length (mem s1 (values y)) = Z.to_nat (_n self) ->
  exists s1' s2',
    linCombImpl fuel self z a x b y s1 = (Ok tt, s1') /\
    linCombImpl fuel self z a x b y s2 = (Ok tt, s2') /\
    forall l, mem s1' l = mem s2' l.
Proof.
  intros Hfuel [Izx Vzx] [Izy Vzy] Agree Lz1 Lz2 Lx Ly.
  assert (Ex : mem s1 (values x) = mem s2 (values x)) by (apply Agree; congruence).
  assert (Ey : mem s1 (values y) = mem s2 (values y)) by (apply Agree; congruence).
  destruct (linCombImpl_run fuel self z a x b y s1) as (s1' & Run1 & Res1 & Frame1);
    try assumption; try (split; intros; congruence).
  destruct (linCombImpl_run fuel self z a x b y s2) as (s2' & Run2 & Res2 & Frame2);
    try assumption; try (split; intros; congruence); try congruence.
  exists s1', s2'. split; [exact Run1|]. split; [exact Run2|].
  intros l. destruct (Nat.eq_dec l (values z)) as [->|Nl].
  - rewrite Res1, Res2, <- Ex, <- Ey.
    apply is_false_iff in Izx, Izy. rewrite Izx, Izy.
    destruct (is_ x y && fneb b fzero); apply dispatch_result_fresh; congruence.
  - rewrite Frame1, Frame2 by assumption. now apply Agree.
Qed.

Lemma non_aliased_exclusive (u v : Vector) : non_aliased u v -> exclusive u v.
Proof. intros [I V]. split; intros; congruence. Qed.

End RunAny.

(** ** The engine and the store *)

(** X1. Whatever the vectors, the scalars, the depth of the stack and the
    outcome, [linCombImpl z a x b y] changes no buffer but the one [z]
    refers to, changes the number of elements of no buffer (not of [z]'s
    either) and creates no object. *)
Theorem linCombImpl_writes_only_z :
  forall (F : Type) (SF : Scalar F)
         (fuel : nat) (self : RN) (z x y : Vector) (a b : F) (s : store F),
    let s' := snd (linCombImpl fuel self z a x b y s) in
    (forall l, l <> values z -> mem s' l = mem s l) /\
    (forall l, length (mem s' l) = length (mem s l)) /\
    next_id s' = next_id s.
Proof.
  intros F SF fuel self z x y a b s.
  destruct (linCombImpl_confined fuel self z a x b y s) as (L & Fr & Id & _).
  auto.
Qed.

(** X2. A call of [linCombImpl] keeps the log of BLAS calls it finds and
    appends at most three calls to it, whatever the arguments and the
    outcome; the doctest [z = 2*x + 3*y] uses the three: [copy], [scal],
    [axpy]. *)
Theorem linCombImpl_at_most_three_blas_calls :
  (forall (F : Type) (SF : Scalar F)
          (fuel : nat) (self : RN) (z x y : Vector) (a b : F) (s : store F),
      exists cs,
        calls (snd (linCombImpl fuel self z a x b y s)) = calls s ++ cs /\
        (length cs <= 3)%nat) /\
  calls (snd (linCombImpl 2 Scenario.R3 Scenario.z3 2%float Scenario.x3 3%float
                          Scenario.y3 Scenario.doctest_store)) =
  [Copy 1 2; Scal 3%float 2; Axpy 0 2 3 2%float].
Proof.
  split; [|reflexivity].
  intros F SF fuel self z x y a b s.
  destruct (linCombImpl_confined fuel self z a x b y s) as (_ & _ & _ & Cs & _).
  exact Cs.
Qed.



(** X4. The engine never reads a result vector that is not one of the
    summands: for [z] non-aliased with [x] and [y], two runs from stores
    that differ in the contents of [z]'s buffer only, both of [n] elements,
    return normally and leave every buffer, [z]'s included, with the same
    contents. *)
Theorem linCombImpl_ignores_old_result :
  forall (F : Type) (SF : Scalar F)
         (fuel : nat) (self : RN) (z x y : Vector) (a b : F) (s1 s2 : store F),
    (2 <= fuel)%nat ->
    non_aliased z x -> non_aliased z y ->
    (forall l, l <> values z -> mem s1 l = mem s2 l) ->
    length (mem s1 (values z)) = Z.to_nat (_n self) ->
    length (mem s2 (values z)) = Z.to_nat (_n self) ->
    length (mem s1 (values x)) = Z.to_nat (_n self) ->
    length (mem s1 (values y)) = Z.to_nat (_n self) ->
    exists s1' s2',
      linCombImpl fuel self z a x b y s1 = (Ok tt, s1') /\
      linCombImpl fuel self z a x b y s2 = (Ok tt, s2') /\
      forall l, mem s1' l = mem s2' l.
Proof.
  intros F SF fuel self z x y a b s1 s2.
  apply linCombImpl_result_independent.
Qed.

Lemma linCombImpl_ignores_old_result_witness :
  exists s1' s2',
    linCombImpl 2 Scenario.R3 Scenario.z3 2%float Scenario.x3 3%float Scenario.y3
                Scenario.doctest_store = (Ok tt, s1') /\
    linCombImpl 2 Scenario.R3 Scenario.z3 2%float Scenario.x3 3%float Scenario.y3
                (mkStore (upd (mem Scenario.doctest_store) 2%nat [0; 0; 0]%float)
                         [] 14) = (Ok tt, s2') /\
    forall l, mem s1' l = mem s2' l.
Proof.
  refine (linCombImpl_ignores_old_result float _ 2%nat Scenario.R3 Scenario.z3
            Scenario.x3 Scenario.y3 2%float 3%float Scenario.doctest_store
            (mkStore (upd (mem Scenario.doctest_store) 2%nat [0; 0; 0]%float) [] 14)
            _ _ _ _ _ _ _ _);
    try reflexivity; try (split; simpl; lia); try lia.
  intros l Nl. simpl. symmetry. now apply upd_other.
Defined.

(** X5. The coefficients [a = 1] and a zero [b] move data without
    arithmetic.  Into a [z] that is another object than [x] and [y], and as
    long as [x], the call is the single BLAS call [copy(x, z)]: [z]'s buffer
    ends as [x]'s, bit for bit, whatever [y] holds.  With [z] itself as the
    first summand the call returns at once: no BLAS call, the store as it
    was. *)
Theorem linCombImpl_one_zero_moves_data :
  (forall (fuel : nat) (self : RN) (z x y : Vector) (b : float) (s : store float),
      PrimFloat.eqb b 0 = true ->
      vid z <> vid x -> vid z <> vid y ->
      length (mem s (values x)) = length (mem s (values z)) ->
      linCombImpl (S fuel) self z 1%float x b y s =
      (Ok tt, mkStore (upd (mem s) (values z) (mem s (values x)))
                      (calls s ++ [Copy (values x) (values z)]) (next_id s))) /\
  (forall (fuel : nat) (self : RN) (z y : Vector) (b : float) (s : store float),
      PrimFloat.eqb b 0 = true ->
      vid z <> vid y ->
      linCombImpl (S fuel) self z 1%float z b y s = (Ok tt, s)).
Proof.
  split.
  - intros fuel self z x y b s Eb Nzx Nzy L.
    apply is_false_iff in Nzx, Nzy.
    simpl. unfold fneb. cbn [feqb fzero fone float64].
    rewrite Eb, Nzx, Nzy. cbn [negb andb]. rewrite andb_false_r.
    unfold bind. now rewrite copy_run by assumption.
  - intros fuel self z y b s Eb Nzy.
    apply is_false_iff in Nzy.
    simpl. unfold fneb. cbn [feqb fzero fone float64].
    rewrite Eb, is_refl, Nzy. reflexivity.
Qed.

Lemma linCombImpl_one_zero_moves_data_witness :
  linCombImpl 2 Scenario.R1 Scenario.out_z 1%float Scenario.inf_y 0%float Scenario.one_x
              Scenario.mixed_store =
  (Ok tt, mkStore (upd (mem Scenario.mixed_store) 2%nat [infinity])
                  [Copy 1 2] 13) /\
  linCombImpl 2 Scenario.R1 Scenario.inf_y 1%float Scenario.inf_y 0%float Scenario.one_x
              Scenario.mixed_store = (Ok tt, Scenario.mixed_store).
Proof.
  split.
  - refine (proj1 linCombImpl_one_zero_moves_data 1%nat Scenario.R1 Scenario.out_z
                  Scenario.inf_y Scenario.one_x 0%float Scenario.mixed_store _ _ _ _);
      try reflexivity; simpl; lia.
  - refine (proj2 linCombImpl_one_zero_moves_data 1%nat Scenario.R1 Scenario.inf_y
                  Scenario.one_x 0%float Scenario.mixed_store _ _);
      try reflexivity; simpl; lia.
Defined.

(** ** Element access *)

Section Items.
Context {F : Type} `{Scalar F}.

Lemma np_index_valid len i :
  (- Z.of_nat len <= i < Z.of_nat len)%Z ->
  exists k, np_index len i = Some k /\ (k < len)%nat /\
            Z.of_nat k = (if (i <? 0)%Z then i + Z.of_nat len else i)%Z.
Proof.
  intros [Lo Hi]. unfold np_index.
  destruct (0 <=? i)%Z eqn:E0.
  - apply Z.leb_le in E0. apply Z.ltb_lt in Hi as Hi'. rewrite Hi'. simpl.
    exists (Z.to_nat i). split; [reflexivity|].
    destruct (i <? 0)%Z eqn:En; [apply Z.ltb_lt in En|]; lia.
  - apply Z.leb_gt in E0. simpl.
    apply Z.leb_le in Lo as Lo'. apply Z.ltb_lt in E0 as E0'. rewrite Lo', E0'. simpl.
    exists (Z.to_nat (i + Z.of_nat len)). split; [reflexivity|]. lia.
Qed.

Lemma np_index_some_lt len i k : np_index len i = Some k -> (k < len)%nat.
Proof.
  unfold np_index.
  destruct (0 <=? i)%Z eqn:E0; destruct (i <? Z.of_nat len)%Z eqn:E1;
    destruct (- Z.of_nat len <=? i)%Z eqn:E2; destruct (i <? 0)%Z eqn:E3; simpl;
    try apply Z.leb_le in E0; try apply Z.leb_gt in E0;
    try apply Z.ltb_lt in E1; try apply Z.ltb_ge in E1;
    try apply Z.leb_le in E2; try apply Z.leb_gt in E2;
    try apply Z.ltb_lt in E3; try apply Z.ltb_ge in E3;
    intros E; try discriminate; injection E as <-; lia.
Qed.

Lemma np_index_none len i :
  np_index len i = None <-> (i < - Z.of_nat len \/ Z.of_nat len <= i)%Z.
Proof.
  unfold np_index.
  destruct (0 <=? i)%Z eqn:E0; destruct (i <? Z.of_nat len)%Z eqn:E1;
    destruct (- Z.of_nat len <=? i)%Z eqn:E2; destruct (i <? 0)%Z eqn:E3; simpl;
    try apply Z.leb_le in E0; try apply Z.leb_gt in E0;
    try apply Z.ltb_lt in E1; try apply Z.ltb_ge in E1;
    try apply Z.leb_le in E2; try apply Z.leb_gt in E2;
    try apply Z.ltb_lt in E3; try apply Z.ltb_ge in E3;
    split; intros Hyp; try discriminate; try reflexivity; lia.
Qed.

Lemma list_set_length k (v : F) xs : length (list_set k v xs) = length xs.
Proof.
  revert k; induction xs as [|x xs IH]; intros [|k]; simpl; auto.
Qed.

Lemma nth_list_set_same k (v : F) xs d :
  (k < length xs)%nat -> nth k (list_set k v xs) d = v.
Proof.
  revert k; induction xs as [|x xs IH]; intros [|k] L; simpl in *; try lia; auto.
  apply IH. lia.
Qed.

Lemma nth_list_set_other k j (v : F) xs d :
  k <> j -> nth j (list_set k v xs) d = nth j xs d.
Proof.
  revert k j; induction xs as [|x xs IH]; intros [|k] [|j] N; simpl; auto; try lia.
Qed.

Lemma setitem_run (v : Vector) i value (s : store F) k :
  np_index (length (mem s (values v))) i = Some k ->
  __setitem__ v i value s =
  Some (mkStore (upd (mem s) (values v) (list_set k value (mem s (values v))))
                (calls s) (next_id s)).
Proof. intros E. unfold __setitem__. now rewrite E. Qed.

End Items.

(** X6. Writing an element and reading it back.  For an index [i] with
    [-len <= i < len], [v[i] = value] succeeds; afterwards [u[i]] is
    [value] for [v] and for every vector [u] on the same array, the elements
    at the other positions read as before, the vectors on other arrays read
    as before, and the array keeps its length.  No BLAS routine is
    called. *)
Theorem setitem_then_getitem :
  forall (F : Type) (SF : Scalar F) (v : Vector) (i : Z) (value : F) (s : store F),
    (- Z.of_nat (length (mem s (values v))) <= i < Z.of_nat (length (mem s (values v))))%Z ->
    exists s',
      __setitem__ v i value s = Some s' /\
      (forall u, values u = values v -> __getitem__ u i s' = Some value) /\
      (forall u j, values u = values v ->
                   np_index (length (mem s (values v))) j <>
                   np_index (length (mem s (values v))) i ->
                   __getitem__ u j s' = __getitem__ u j s) /\
      (forall u j, values u <> values v -> __getitem__ u j s' = __getitem__ u j s) /\
      length (mem s' (values v)) = length (mem s (values v)) /\
      calls s' = calls s.
Proof.
  intros F SF v i value s Range.
  destruct (np_index_valid _ _ Range) as (k & Ek & Lk & _).
  eexists. split; [apply setitem_run; exact Ek|]. simpl.
  split; [|split; [|split; [|split]]].
  - intros u Eu. unfold __getitem__. simpl.
    rewrite Eu, upd_same, list_set_length, Ek.
    now rewrite nth_list_set_same.
  - intros u j Eu Nj. unfold __getitem__. simpl.
    rewrite Eu, upd_same, list_set_length.
    destruct (np_index (length (mem s (values v))) j) as [k'|]; [|reflexivity].
    rewrite nth_list_set_other; [reflexivity|]. congruence.
  - intros u j Nu. unfold __getitem__. simpl. now rewrite upd_other.
  - rewrite upd_same. apply list_set_length.
  - reflexivity.
Qed.

Lemma setitem_then_getitem_witness :
  exists s',
    __setitem__ Scenario.shared_z (-1) 5%float Scenario.shared_store = Some s' /\
    (forall u, values u = 0%nat -> __getitem__ u (-1) s' = Some 5%float) /\
    (forall u j, values u = 0%nat ->
                 np_index 1 j <> np_index 1 (-1) ->
                 __getitem__ u j s' = __getitem__ u j Scenario.shared_store) /\
    (forall u j, values u <> 0%nat ->
                 __getitem__ u j s' = __getitem__ u j Scenario.shared_store) /\
    length (mem s' 0%nat) = 1%nat /\
    calls s' = [].
Proof.
  refine (setitem_then_getitem float _ Scenario.shared_z (-1) 5%float
            Scenario.shared_store _).
  simpl. lia.
Defined.

(** X7. Indices.  With [len] the number of elements of [v]'s array,
    [v[i]] and [v[i] = value] fail exactly when [i < -len] or [len <= i],
    and a failed assignment has written nothing; an index [i] with
    [-len <= i < 0] reads the element that [i + len] reads. *)
Theorem index_out_of_range :
  forall (F : Type) (SF : Scalar F) (v : Vector) (i : Z) (value : F) (s : store F),
    let len := Z.of_nat (length (mem s (values v))) in
    (__getitem__ v i s = None <-> (i < - len \/ len <= i)%Z) /\
    (__setitem__ v i value s = None <-> (i < - len \/ len <= i)%Z) /\
    ((- len <= i < 0)%Z -> __getitem__ v i s = __getitem__ v (i + len) s).
Proof.
  intros F SF v i value s len. subst len.
  split; [|split].
  - rewrite <- np_index_none. unfold __getitem__.
    destruct (np_index _ _); split; intros E; try discriminate; reflexivity.
  - rewrite <- np_index_none. unfold __setitem__.
    destruct (np_index _ _); split; intros E; try discriminate; reflexivity.
  - intros Range.
    destruct (np_index_valid (length (mem s (values v))) i) as (k & Ek & _ & Vk); [lia|].
    destruct (np_index_valid (length (mem s (values v)))
                             (i + Z.of_nat (length (mem s (values v)))))
      as (k' & Ek' & _ & Vk'); [lia|].
    unfold __getitem__. rewrite Ek, Ek'.
    assert (En : (i <? 0)%Z = true) by (apply Z.ltb_lt; lia).
    assert (Ep : (i + Z.of_nat (length (mem s (values v))) <? 0)%Z = false)
      by (apply Z.ltb_ge; lia).
    rewrite En in Vk. rewrite Ep in Vk'.
    assert (k = k') by lia. now subst.
Qed.

Lemma index_out_of_range_witness :
  __getitem__ Scenario.x3 (-1) Scenario.doctest_store =
  __getitem__ Scenario.x3 (-1 + 3) Scenario.doctest_store.
Proof.
  refine (proj2 (proj2 (index_out_of_range float _ Scenario.x3 (-1) 0%float
                          Scenario.doctest_store)) _).
  simpl. lia.
Defined.

(** ** Making vectors *)

Section Alloc.
Context {F : Type} `{Scalar F}.

Lemma makeVector_ndarray_ok self arr (s : store F) :
  Z.of_nat (length (mem s arr)) = _n self ->
  makeVector_ndarray self arr s =
  (Ok (mkVector (next_id s) self arr), mkStore (mem s) (calls s) (S (next_id s))).
Proof.
  intros E. unfold makeVector_ndarray. apply Z.eqb_eq in E. now rewrite E.
Qed.

Lemma makeVector_ndarray_bad self arr (s : store F) :
  Z.of_nat (length (mem s arr)) <> _n self ->
  makeVector_ndarray self arr s = (Raise ValueError, s).
Proof.
  intros E. unfold makeVector_ndarray. apply Z.eqb_neq in E. now rewrite E.
Qed.

Lemma makeVector_array_like self xs (s : store F) :
  makeVector self (ArrayLike xs) s =
  bind (np_alloc xs) (fun arr => makeVector self (NdArray arr)) s.
Proof. reflexivity. Qed.

(** A new array of [n] elements wrapped by [makeVector]. *)
Lemma alloc_then_makeVector self xs (s : store F) :
  Z.of_nat (length xs) = _n self ->
  bind (np_alloc xs) (fun arr => makeVector self (NdArray arr)) s =
  (Ok (mkVector (S (next_id s)) self (next_id s)),
   mkStore (upd (mem s) (next_id s) xs) (calls s) (S (S (next_id s)))).
Proof.
  intros E. unfold bind, np_alloc. simpl.
  rewrite makeVector_ndarray_ok; [reflexivity|]. simpl. now rewrite upd_same.
Qed.





(** A vector just made on a new array is non-aliased with every vector
    that existed. *)
Lemma fresh_non_aliased self (s : store F) u :
  known s u -> non_aliased (mkVector (S (next_id s)) self (next_id s)) u.
Proof. intros [Iu Vu]. split; simpl; lia. Qed.

End Alloc.

(** X8. [makeVector] on an array wraps it without copying.  When the
    array holds [n] elements the call returns a new vector object on that
    very array and changes no buffer; [len] of the vector is the length of
    the array; a later write through any vector on the array shows through
    the new one.  When the array holds another number of elements the call
    raises [ValueError] and leaves the store as it was. *)
Theorem makeVector_wraps_the_array :
  forall (F : Type) (SF : Scalar F) (self : RN) (arr : loc) (s : store F),
    (Z.of_nat (length (mem s arr)) = _n self ->
     exists v s',
       makeVector self (NdArray arr) s = (Ok v, s') /\
       values v = arr /\ vid v = next_id s /\ space v = self /\
       __len__ v = Z.of_nat (length (mem s' (values v))) /\
       (forall l, mem s' l = mem s l) /\
       (forall u i value s'',
           values u = arr -> __setitem__ u i value s' = Some s'' ->
           __getitem__ v i s'' = Some value)) /\
    (Z.of_nat (length (mem s arr)) <> _n self ->
     makeVector self (NdArray arr) s = (Raise ValueError, s)).
Proof.
  intros F SF self arr s. split.
  - intros E. simpl. rewrite makeVector_ndarray_ok by assumption.
    eexists; eexists. split; [reflexivity|]. simpl.
    repeat split; auto.
    intros u i value s'' Eu Hset.
    unfold __setitem__ in Hset. simpl in Hset. rewrite Eu in Hset.
    unfold __getitem__. simpl.
    destruct (np_index (length (mem s arr)) i) as [k|] eqn:Ek; [|discriminate].
    injection Hset as <-. simpl.
    rewrite upd_same, list_set_length, Ek.
    rewrite nth_list_set_same; [reflexivity|].
    now apply np_index_some_lt in Ek.
  - intros E. simpl. now apply makeVector_ndarray_bad.
Qed.

Lemma makeVector_wraps_the_array_witness :
  (exists v s',
      makeVector Scenario.R1 (NdArray 0%nat) Scenario.shared_store = (Ok v, s') /\
      values v = 0%nat /\ vid v = 13%nat /\ space v = Scenario.R1 /\
      __len__ v = Z.of_nat (length (mem s' (values v))) /\
      (forall l, mem s' l = mem Scenario.shared_store l) /\
      (forall u i value s'',
          values u = 0%nat -> __setitem__ u i value s' = Some s'' ->
          __getitem__ v i s'' = Some value)) /\
  makeVector Scenario.R3 (NdArray 0%nat) Scenario.shared_store =
  (Raise ValueError, Scenario.shared_store).
Proof.
  split.
  - refine (proj1 (makeVector_wraps_the_array float _ Scenario.R1 0%nat
                     Scenario.shared_store) _).
    reflexivity.
  - refine (proj2 (makeVector_wraps_the_array float _ Scenario.R3 0%nat
                     Scenario.shared_store) _).
    simpl. lia.
Defined.

(** X9. [makeVector] on a sequence of numbers builds a new array.  When
    the sequence has [n] elements the call returns a vector that holds
    them, non-aliased with every vector that existed, and the buffers of
    those vectors are unchanged.  When it has another number of elements
    the call raises [ValueError]; the buffers that existed are unchanged
    then too. *)
Theorem makeVector_converts_to_a_new_array :
  forall (F : Type) (SF : Scalar F) (self : RN) (xs : list F) (s : store F),
    (Z.of_nat (length xs) = _n self ->
     exists v s',
       makeVector self (ArrayLike xs) s = (Ok v, s') /\
       space v = self /\
       mem s' (values v) = xs /\
       known s' v /\
       (forall u, known s u ->
                  non_aliased v u /\ mem s' (values u) = mem s (values u) /\ known s' u)) /\
    (Z.of_nat (length xs) <> _n self ->
     fst (makeVector self (ArrayLike xs) s) = Raise ValueError /\
     (forall u, known s u ->
                mem (snd (makeVector self (ArrayLike xs) s)) (values u) = mem s (values u))).
Proof.
  intros F SF self xs s. split.
  - intros E. rewrite makeVector_array_like, alloc_then_makeVector by assumption.
    eexists; eexists. split; [reflexivity|]. simpl.
    split; [reflexivity|]. split; [apply upd_same|].
    split; [split; simpl; lia|].
    intros u [Iu Vu]. split; [apply fresh_non_aliased; now split|].
    split; [apply upd_other; lia|split; simpl; lia].
  - intros E. rewrite makeVector_array_like. unfold bind, np_alloc. simpl.
    rewrite makeVector_ndarray_bad by (simpl; now rewrite upd_same).
    simpl. split; [reflexivity|].
    intros u [Iu Vu]. apply upd_other. lia.
Qed.

Lemma makeVector_converts_to_a_new_array_witness :
  (exists v s',
      makeVector Scenario.R3 (ArrayLike [1; 2; 3]%float) Scenario.doctest_store
      = (Ok v, s') /\
      space v = Scenario.R3 /\
      mem s' (values v) = [1; 2; 3]%float /\
      known s' v /\
      (forall u, known Scenario.doctest_store u ->
                 non_aliased v u /\
                 mem s' (values u) = mem Scenario.doctest_store (values u) /\
                 known s' u)) /\
  (fst (makeVector Scenario.R3 (ArrayLike [1; 2]%float) Scenario.doctest_store)
   = Raise ValueError /\
   (forall u, known Scenario.doctest_store u ->
              mem (snd (makeVector Scenario.R3 (ArrayLike [1; 2]%float)
                                   Scenario.doctest_store)) (values u)
              = mem Scenario.doctest_store (values u))).
Proof.
  split.
  - refine (proj1 (makeVector_converts_to_a_new_array float _ Scenario.R3
                     [1; 2; 3]%float Scenario.doctest_store) _).
    reflexivity.
  - refine (proj2 (makeVector_converts_to_a_new_array float _ Scenario.R3
                     [1; 2]%float Scenario.doctest_store) _).
    simpl. lia.
Defined.



(** ** Fresh vectors as arguments of the engine *)

Section FreshArguments.
Context {F : Type} `{ExactScalar F}.


End FreshArguments.





(** ** The inner product *)

Section Inner.
Context {F : Type} `{Scalar F}.

Lemma dot_list_comm (xs ys : list F) :
  (forall u v : F, fmul u v = fmul v u) -> dot_list xs ys = dot_list ys xs.
Proof.
  intros Comm. unfold dot_list. f_equal.
  rewrite zip_with_flip. apply zip_with_ext. intros; apply Comm.
Qed.

Lemma dot_run x y (s : store F) :
  (length (mem s x) <= length (mem s y))%nat ->
  _dot x y s = (Ok (dot_list (mem s x) (mem s y)), s).
Proof. intros L. unfold _dot. apply Nat.leb_le in L. now rewrite L. Qed.

End Inner.

Section InnerExact.
Context {F : Type} `{ExactRing F}.

Lemma fadd_shuffle (p q u v : F) :
  fadd (fadd p q) (fadd u v) = fadd (fadd p u) (fadd q v).
Proof.
  rewrite <- (fadd_assoc p q), (fadd_assoc q u v), (fadd_comm q u).
  now rewrite <- (fadd_assoc u q v), (fadd_assoc p u).
Qed.

(** The accumulation of [dot] over [a*x + b*y], started from
    [a*c1 + b*c2], is [a] times that over [x] started from [c1] plus [b]
    times that over [y] started from [c2]. *)
Lemma fold_dot_linear a b (xs ys ws : list F) c1 c2 :
  length xs = length ys ->
  fold_left fadd (zip_with fmul (lincomb_ref a xs b ys) ws)
            (fadd (fmul a c1) (fmul b c2)) =
  fadd (fmul a (fold_left fadd (zip_with fmul xs ws) c1))
       (fmul b (fold_left fadd (zip_with fmul ys ws) c2)).
Proof.
  revert ys ws c1 c2. induction xs as [|x xs IH]; intros [|y ys] ws c1 c2 L;
    try discriminate; [reflexivity|].
  destruct ws as [|w ws]; [reflexivity|].
  unfold lincomb_ref. simpl. fold (lincomb_ref a xs b ys).
  rewrite <- IH by (simpl in L; congruence). f_equal.
  rewrite !fmul_add_distr_l, fmul_add_distr_r, <- !fmul_assoc.
  apply fadd_shuffle.
Qed.

Lemma dot_list_linear a b (xs ys ws : list F) :
  length xs = length ys ->
  dot_list (lincomb_ref a xs b ys) ws =
  fadd (fmul a (dot_list xs ws)) (fmul b (dot_list ys ws)).
Proof.
  intros L. unfold dot_list. rewrite <- fold_dot_linear by assumption.
  now rewrite !fmul_0_r, fadd_0_l.
Qed.

End InnerExact.

#[export] Instance exactZ_ring : ExactRing Z.
Proof.
  split; simpl; intros.
  - apply Z.add_assoc.
  - apply Z.mul_assoc.
  - apply Z.mul_add_distr_l.
  - apply Z.mul_0_r.
Qed.

Section Float64Products.

Lemma float_mul_comm (u v : float) : (u * v)%float = (v * u)%float.
Proof.
  apply Prim2SF_inj. rewrite !mul_spec. unfold SF64mul, SFmul.
  destruct (Prim2SF u) as [su|su| |su mu eu], (Prim2SF v) as [sv|sv| |sv mv ev];
    try reflexivity; try (now rewrite (xorb_comm su sv)).
  now rewrite (xorb_comm su sv), (Pos.mul_comm mu mv), (Z.add_comm eu ev).
Qed.

End Float64Products.

(** X13. [innerImpl] reads and never writes: the store it returns is the
    store it was given, whatever the outcome.  It raises exactly when [y]'s
    array is shorter than [x]'s.  On binary64 arrays of one length,
    [innerImpl x y] and [innerImpl y x] return the same float, bit for
    bit; [innerImpl [5,3,2] [1,2,3]] is [17]. *)
Theorem innerImpl_symmetric_and_pure :
  (forall (F : Type) (SF : Scalar F) (self : RN) (x y : Vector) (s : store F),
      snd (innerImpl self x y s) = s /\
      (fst (innerImpl self x y s) = Raise BlasError <->
       (length (mem s (values y)) < length (mem s (values x)))%nat)) /\
  (forall (self : RN) (x y : Vector) (s : store float),
      length (mem s (values x)) = length (mem s (values y)) ->
      exists v, innerImpl self x y s = (Ok v, s) /\ innerImpl self y x s = (Ok v, s)) /\
  innerImpl Scenario.R3 Scenario.x3 Scenario.y3 Scenario.multiply_store =
  (Ok 17%float, Scenario.multiply_store).
Proof.
  split; [|split].
  - intros F SF self x y s. unfold innerImpl, _dot.
    destruct (length (mem s (values x)) <=? length (mem s (values y)))%nat eqn:L; simpl.
    + apply Nat.leb_le in L. split; [reflexivity|].
      split; [discriminate|lia].
    + apply Nat.leb_gt in L. split; [reflexivity|]. split; auto.
  - intros self x y s L. unfold innerImpl.
    rewrite !dot_run by lia.
    eexists. split; [reflexivity|].
    f_equal. f_equal. apply dot_list_comm. apply float_mul_comm.
  - reflexivity.
Qed.

Lemma innerImpl_symmetric_and_pure_witness :
  exists v,
    innerImpl Scenario.R3 Scenario.x3 Scenario.y3 Scenario.doctest_store
    = (Ok v, Scenario.doctest_store) /\
    innerImpl Scenario.R3 Scenario.y3 Scenario.x3 Scenario.doctest_store
    = (Ok v, Scenario.doctest_store).
Proof.
  refine (proj1 (proj2 innerImpl_symmetric_and_pure) Scenario.R3 Scenario.x3
                Scenario.y3 Scenario.doctest_store _).
  reflexivity.
Defined.

(** X14. The inner product is linear in the vector the engine computes.
    In exact arithmetic, for [z], [x], [y] that share a buffer only when
    they are one object, and a vector [w] on another buffer than [z], all
    of [n] elements: after [linCombImpl z a x b y], [innerImpl z w] is
    [a * innerImpl x w + b * innerImpl y w], the inner products of [x] and
    [y] being taken before the call. *)
Theorem innerImpl_linear_in_linCombImpl :
  forall (F : Type) (SF : Scalar F) (EF : ExactScalar F) (RF : ExactRing F)
         (fuel : nat) (self : RN) (z x y w : Vector) (a b : F) (s : store F),
    (2 <= fuel)%nat ->
    exclusive z x -> exclusive z y -> exclusive x y ->
    values w <> values z ->
    length (mem s (values z)) = Z.to_nat (_n self) ->
    length (mem s (values x)) = Z.to_nat (_n self) ->
    length (mem s (values y)) = Z.to_nat (_n self) ->
    length (mem s (values w)) = Z.to_nat (_n self) ->
    exists ix iy iz s',
      innerImpl self x w s = (Ok ix, s) /\
      innerImpl self y w s = (Ok iy, s) /\
      linCombImpl fuel self z a x b y s = (Ok tt, s') /\
      innerImpl self z w s' = (Ok iz, s') /\
      iz = fadd (fmul a ix) (fmul b iy).
Proof.
  intros F SF EF RF fuel self z x y w a b s Hfuel Xzx Xzy Xxy Nw Lz Lx Ly Lw.
  destruct (linCombImpl_exact fuel self z a x b y s) as (s' & Run & Res & Frame & _);
    try assumption.
  assert (Lz' : length (mem s' (values z)) = Z.to_nat (_n self)).
  { rewrite Res. unfold lincomb_ref. rewrite zip_with_length; congruence. }
  assert (Lw' : length (mem s' (values w)) = Z.to_nat (_n self))
    by (rewrite Frame by assumption; exact Lw).
  unfold innerImpl.
  exists (dot_list (mem s (values x)) (mem s (values w))),
         (dot_list (mem s (values y)) (mem s (values w))),
         (dot_list (mem s' (values z)) (mem s' (values w))), s'.
  rewrite (dot_run (values x)), (dot_run (values y)), (dot_run (values z)) by lia.
  split; [reflexivity|]. split; [reflexivity|]. split; [exact Run|].
  split; [reflexivity|].
  rewrite Res, (Frame (values w)) by assumption.
  apply dot_list_linear. congruence.
Qed.

Lemma innerImpl_linear_in_linCombImpl_witness :
  exists ix iy iz s',
    innerImpl Scenario.R3 Scenario.x3 Scenario.y3 Scenario.exact_store
    = (Ok ix, Scenario.exact_store) /\
    innerImpl Scenario.R3 Scenario.y3 Scenario.y3 Scenario.exact_store
    = (Ok iy, Scenario.exact_store) /\
    linCombImpl 2 Scenario.R3 Scenario.z3 2%Z Scenario.x3 3%Z Scenario.y3
                Scenario.exact_store = (Ok tt, s') /\
    innerImpl Scenario.R3 Scenario.z3 Scenario.y3 s' = (Ok iz, s') /\
    iz = (2 * ix + 3 * iy)%Z.
Proof.
  refine (innerImpl_linear_in_linCombImpl Z _ _ _ 2%nat Scenario.R3 Scenario.z3
            Scenario.x3 Scenario.y3 Scenario.y3 2%Z 3%Z Scenario.exact_store
            _ _ _ _ _ _ _ _ _);
    try reflexivity; try (split; simpl; lia); simpl; lia.
Defined.

(** ** The pointwise product *)

Section Multiply.
Context {F : Type} `{Scalar F}.

Lemma np_assign_length (src dst v : list F) :
  np_assign src dst = Some v -> length v = length dst.
Proof.
  unfold np_assign. destruct (Nat.eqb (length src) (length dst)) eqn:E.
  - apply Nat.eqb_eq in E. intros [= <-]. exact E.
  - destruct src as [|v0 [|v1 src]]; try discriminate.
    intros [= <-]. apply repeat_length.
Qed.

Lemma multiplyImpl_run self x y (s : store F) :
  length (mem s (values x)) = length (mem s (values y)) ->
  multiplyImpl self x y s =
  (Ok tt, mkStore (upd (mem s) (values y)
                       (zip_with fmul (mem s (values x)) (mem s (values y))))
                  (calls s) (next_id s)).
Proof.
  intros E. unfold multiplyImpl, np_multiply, np_assign.
  rewrite E, Nat.eqb_refl, zip_with_length by assumption.
  now rewrite E, Nat.eqb_refl.
Qed.

(** An array of one element is stretched to the other's length. *)
Lemma np_multiply_scalar (x0 : F) ys : np_multiply [x0] ys = Some (map (fmul x0) ys).
Proof. unfold np_multiply. destruct ys as [|y0 [|y1 ys]]; reflexivity. Qed.

End Multiply.

(** X15. [multiplyImpl] checks no dimension itself; NumPy's broadcasting
    decides.  When [x]'s array holds one element [x0], every element of [y]
    is multiplied by [x0]; when the two arrays differ in length and [x]'s
    does not hold exactly one element, the call raises [ValueError] and
    leaves the store as it was.  Whatever the outcome no array changes its
    length, no BLAS routine is called and no object is created. *)
Theorem multiplyImpl_broadcasts_or_refuses :
  forall (F : Type) (SF : Scalar F) (self : RN) (x y : Vector) (s : store F),
    (forall x0, mem s (values x) = [x0] ->
                exists s',
                  multiplyImpl self x y s = (Ok tt, s') /\
                  mem s' (values y) = map (fmul x0) (mem s (values y)) /\
                  (forall l, l <> values y -> mem s' l = mem s l)) /\
    (length (mem s (values x)) <> length (mem s (values y)) ->
     length (mem s (values x)) <> 1%nat ->
     multiplyImpl self x y s = (Raise ValueError, s)) /\
    ((forall l, length (mem (snd (multiplyImpl self x y s)) l) = length (mem s l)) /\
     calls (snd (multiplyImpl self x y s)) = calls s /\
     next_id (snd (multiplyImpl self x y s)) = next_id s).
Proof.
  intros F SF self x y s. split; [|split].
  - intros x0 Ex. unfold multiplyImpl. rewrite Ex, np_multiply_scalar.
    unfold np_assign. rewrite length_map, Nat.eqb_refl.
    eexists. split; [reflexivity|]. simpl. rewrite upd_same.
    split; [reflexivity|]. intros l Nl. now apply upd_other.
  - intros Nl N1. unfold multiplyImpl, np_multiply.
    apply Nat.eqb_neq in Nl as E. rewrite E.
    destruct (mem s (values x)) as [|x0 [|x1 xs]];
      destruct (mem s (values y)) as [|y0 [|y1 ys]]; simpl in *;
      try reflexivity; try (exfalso; lia).
  - unfold multiplyImpl.
    destruct (np_multiply (mem s (values x)) (mem s (values y))) as [prod|];
      [|repeat split].
    destruct (np_assign prod (mem s (values y))) as [v|] eqn:Ev; [|repeat split].
    simpl. repeat split.
    intros l. apply length_upd_same_length. now apply np_assign_length in Ev.
Qed.

Lemma multiplyImpl_broadcasts_or_refuses_witness :
  (exists s',
      multiplyImpl Scenario.R3 Scenario.y1 Scenario.x3 Scenario.doctest_store = (Ok tt, s') /\
      mem s' 0%nat = map (PrimFloat.mul 7) [1; 2; 3]%float /\
      (forall l, l <> 0%nat -> mem s' l = mem Scenario.doctest_store l)) /\
  multiplyImpl Scenario.R3 Scenario.x3 Scenario.y1 Scenario.doctest_store =
  (Raise ValueError, Scenario.doctest_store).
Proof.
  split.
  - refine (proj1 (multiplyImpl_broadcasts_or_refuses float _ Scenario.R3 Scenario.y1
                     Scenario.x3 Scenario.doctest_store) 7%float _).
    reflexivity.
  - refine (proj1 (proj2 (multiplyImpl_broadcasts_or_refuses float _ Scenario.R3
                            Scenario.x3 Scenario.y1 Scenario.doctest_store)) _ _);
      simpl; lia.
Defined.

(** X16. On binary64 arrays of one length the pointwise product does not
    depend on which vector receives it: [multiplyImpl x y] leaves in [y],
    bit for bit, what [multiplyImpl y x] leaves in [x]. *)
Theorem multiplyImpl_commutes :
  forall (self : RN) (x y : Vector) (s : store float),
    length (mem s (values x)) = length (mem s (values y)) ->
    exists s1 s2,
      multiplyImpl self x y s = (Ok tt, s1) /\
      multiplyImpl self y x s = (Ok tt, s2) /\
      mem s1 (values y) = mem s2 (values x).
Proof.
  intros self x y s L.
  rewrite !multiplyImpl_run by congruence.
  eexists; eexists. split; [reflexivity|]. split; [reflexivity|].
  simpl. rewrite !upd_same, zip_with_flip.
  apply zip_with_ext. intros; apply float_mul_comm.
Qed.

Lemma multiplyImpl_commutes_witness :
  exists s1 s2,
    multiplyImpl Scenario.R3 Scenario.x3 Scenario.y3 Scenario.multiply_store = (Ok tt, s1) /\
    multiplyImpl Scenario.R3 Scenario.y3 Scenario.x3 Scenario.multiply_store = (Ok tt, s2) /\
    mem s1 1%nat = mem s2 0%nat.
Proof.
  refine (multiplyImpl_commutes Scenario.R3 Scenario.x3 Scenario.y3
            Scenario.multiply_store _).
  reflexivity.
Defined.

(** ** Swapping the summands *)



(** ** One vector in the three places *)

(** X18. With one vector as result and as both summands, on binary64, the
    call [linCombImpl z a z b z] is a single BLAS call [scal(c, z)] that
    multiplies the buffer by [c] in place, where [c] is [a + b] up to the
    sign of a zero: [a + b] itself when [b] is a zero, and [(a + b) + 0],
    which the recursive call computes, otherwise. *)
Theorem linCombImpl_same_vector_scales :
  forall (fuel : nat) (self : RN) (z : Vector) (a b : float) (s : store float),
    let c := if PrimFloat.eqb b 0 then (a + b)%float else (a + b + 0)%float in
    same64 (a + b)%float c /\
    linCombImpl (S (S fuel)) self z a z b z s =
    (Ok tt, mkStore (upd (mem s) (values z) (map (PrimFloat.mul c) (mem s (values z))))
                    (calls s ++ [Scal c (values z)]) (next_id s)).
Proof.
  intros fuel self z a b s c. subst c.
  destruct (PrimFloat.eqb b 0) eqn:Eb.
  - split; [apply same64_refl|].
    simpl. unfold fneb. cbn [feqb fzero fone float64].
    now rewrite Eb, !is_refl.
  - split; [now apply same64_add_zero_r|].
    rewrite linCombImpl_recurse
      by (unfold fneb; cbn [feqb fzero float64]; now rewrite Eb, is_refl).
    simpl. rewrite !is_refl. reflexivity.
Qed.
